(** * Gmail support tools: the function analyzer and the URL tester

    A shallow embedding of [function_analyzer.py] and [url_test.py].

    Both scripts are regular-expression scanners followed by a small
    aggregation.  The regular expressions of the sources are kept as
    regular expressions: module [Re] gives a backtracking matcher with
    Python's [re] search order (leftmost match, greedy and lazy repeats,
    first alternative first), and the scripts' patterns are written as
    terms of its syntax.

    Texts are lists of 8-bit characters.  The character classes [\w] and
    [\s] and the test [isupper] are Python's on ASCII text (codes below
    128); above that range Python's classes follow the Unicode database
    and are wider than the ones here.  A statement that depends on which
    characters a class accepts therefore carries the hypothesis
    [ascii_text] on the text it is about; statements that hold whatever
    the classes are do not. *)

From Stdlib Require Import Ascii String ZArith DecimalString Sorted.
From stdpp Require Import gmap strings list.

Local Open Scope string_scope.
Local Open Scope list_scope.

Abbreviation text := (list ascii).

(** A string literal read as a text. *)
Definition txt (s : string) : text := list_ascii_of_string s.

(** The newline character, [\n]. *)
Definition nl : ascii := "010"%char.

(* ================================================================== *)
(** ** Character classes *)
(* ================================================================== *)

Module Chr.

Definition code (c : ascii) : nat := nat_of_ascii c.

Definition between (lo hi : nat) (c : ascii) : bool :=
  Nat.leb lo (code c) && Nat.leb (code c) hi.

Definition is_digit : ascii -> bool := between 48 57.
Definition is_upper : ascii -> bool := between 65 90.
Definition is_lower : ascii -> bool := between 97 122.

(** [\w] on ASCII text: letters, digits and the underscore. *)
Definition is_word (c : ascii) : bool :=
  is_lower c || is_upper c || is_digit c || Nat.eqb (code c) 95.

(** [\s] on ASCII text: space, [\t \n \v \f \r] and the separators
    [\x1c]..[\x1f]. *)
Definition is_space (c : ascii) : bool :=
  Nat.eqb (code c) 32 || between 9 13 c || between 28 31 c.

(** [.] without DOTALL: everything but the newline. *)
Definition is_dot (c : ascii) : bool := negb (Ascii.eqb c nl).

(** [[\s\S]]: every character. *)
Definition is_any (_ : ascii) : bool := true.

(** [[^...]] for a class given by the list of its characters. *)
Definition none_of (s : string) (c : ascii) : bool :=
  negb (existsb (Ascii.eqb c) (list_ascii_of_string s)).

Definition one_of (s : string) (c : ascii) : bool :=
  existsb (Ascii.eqb c) (list_ascii_of_string s).

End Chr.

(* ================================================================== *)
(** ** A backtracking matcher for the patterns of the two scripts *)
(* ================================================================== *)

Module Re.

(** The fragment of Python's regular expressions the scripts use.  Every
    repeat of the sources ([\s*], [\w+], [.*], [[^)]*], [[\s\S]*?], ...)
    is over a single character class, so [Star] takes a class. *)
Inductive regex : Type :=
| Lit (c : ascii)                       (* a literal character *)
| Cls (p : ascii -> bool)               (* one character of a class *)
| Eps                                   (* the empty pattern *)
| Eol                                   (* [$] under re.MULTILINE *)
| Seq (r1 r2 : regex)                   (* r1 r2 *)
| Alt (r1 r2 : regex)                   (* r1|r2 *)
| Star (greedy : bool) (p : ascii -> bool)  (* p* and p*? *)
| Grp (i : nat) (r : regex).            (* the i-th capturing group *)

Fixpoint lit_list (cs : text) : regex :=
  match cs with
  | [] => Eps
  | [c] => Lit c
  | c :: cs' => Seq (Lit c) (lit_list cs')
  end.

(** A literal word such as [function]. *)
Definition lit (s : string) : regex := lit_list (txt s).

(** [p+], greedy. *)
Definition plus (p : ascii -> bool) : regex := Seq (Cls p) (Star true p).

(** [r?], greedy. *)
Definition opt (r : regex) : regex := Alt r Eps.

Fixpoint seqs (rs : list regex) : regex :=
  match rs with
  | [] => Eps
  | [r] => r
  | r :: rs' => Seq r (seqs rs')
  end.

(** Captured groups, the most recent binding of a group first. *)
Definition groups := list (nat * text).

Fixpoint group (i : nat) (g : groups) : text :=
  match g with
  | [] => []
  | (j, s) :: g' => if Nat.eqb i j then s else group i g'
  end.

Section Matcher.
Context {R : Type}.

(** A repeat over a class, against the continuation [k]: the greedy
    one first tries to take one more character, the lazy one first
    tries to stop. *)
Fixpoint star (greedy : bool) (p : ascii -> bool) (s : text)
    (k : text -> option R) : option R :=
  match s with
  | [] => k []
  | c :: s' =>
      if p c then
        if greedy then
          match star greedy p s' k with
          | Some x => Some x
          | None => k s
          end
        else
          match k s with
          | Some x => Some x
          | None => star greedy p s' k
          end
      else k s
  end.

(** [run r g s k]: match [r] at the head of [s], then continue with
    [k] on the groups and the rest; the first success in Python's
    backtracking order is returned. *)
Fixpoint run (r : regex) (g : groups) (s : text)
    (k : groups -> text -> option R) : option R :=
  match r with
  | Lit c =>
      match s with
      | c' :: s' => if Ascii.eqb c c' then k g s' else None
      | [] => None
      end
  | Cls p =>
      match s with
      | c' :: s' => if p c' then k g s' else None
      | [] => None
      end
  | Eps => k g s
  | Eol =>
      match s with
      | [] => k g s
      | c' :: _ => if Ascii.eqb c' nl then k g s else None
      end
  | Seq r1 r2 => run r1 g s (fun g' s' => run r2 g' s' k)
  | Alt r1 r2 =>
      match run r1 g s k with
      | Some x => Some x
      | None => run r2 g s k
      end
  | Star greedy p => star greedy p s (k g)
  | Grp i r0 =>
      run r0 g s
        (fun g' s' => k ((i, take (length s - length s') s) :: g') s')
  end.
End Matcher.

(** [pattern.match] anchored at the head of [s]: the groups and the
    unmatched rest. *)
Definition match_at (r : regex) (s : text) : option (groups * text) :=
  run r [] s (fun g s' => Some (g, s')).

(** A match object: [start()], [end()] and the groups. *)
Record Match : Type := mkMatch {
  m_start : nat;
  m_end : nat;
  m_groups : groups
}.

(** The scan behind [re.finditer]: positions are tried from left to
    right, and after a match the scan resumes at its end.  [skip] counts
    the characters of the last match that are still to be passed over;
    [pos] is the offset of [s] in the whole text. *)
Fixpoint scan (r : regex) (pos skip : nat) (s : text) : list Match :=
  match s with
  | [] =>
      match skip, match_at r [] with
      | 0, Some (g, _) => [mkMatch pos pos g]
      | _, _ => []
      end
  | _ :: s' =>
      match skip with
      | S n => scan r (S pos) n s'
      | 0 =>
          match match_at r s with
          | Some (g, rest) =>
              let len := length s - length rest in
              mkMatch pos (pos + len) g :: scan r (S pos) (len - 1) s'
          | None => scan r (S pos) 0 s'
          end
      end
  end.

Definition finditer (r : regex) (s : text) : list Match := scan r 0 0 s.

(** [re.findall] for a pattern with one group: the list of [group(1)]. *)
Definition findall (r : regex) (s : text) : list text :=
  map (fun m => group 1 (m_groups m)) (finditer r s).

(** [re.findall] for a pattern without groups: the matched substrings. *)
Definition findall0 (r : regex) (s : text) : list text :=
  map (fun m => take (m_end m - m_start m) (drop (m_start m) s))
      (finditer r s).

(** [re.sub(r, '', s)]: the text with every match removed. *)
Fixpoint remove (r : regex) (skip : nat) (s : text) : text :=
  match s with
  | [] => []
  | c :: s' =>
      match skip with
      | S n => remove r n s'
      | 0 =>
          match match_at r s with
          | Some (_, rest) =>
              match length s - length rest with
              | 0 => c :: remove r 0 s'
              | S n => remove r n s'
              end
          | None => c :: remove r 0 s'
          end
      end
  end.

Definition sub_empty (r : regex) (s : text) : text := remove r 0 s.

End Re.

(* ================================================================== *)
(** ** Python values shared by the two scripts *)
(* ================================================================== *)

(** A text read back as a Python [str] value used as a name or a key. *)
Definition str (s : text) : string := string_of_list_ascii s.

(** [s.count(c)] for a one-character [c]. *)
Fixpoint count (c : ascii) (s : text) : nat :=
  match s with
  | [] => 0
  | c' :: s' => (if Ascii.eqb c' c then 1 else 0) + count c s'
  end.

(** [name.startswith(p)]. *)
Definition startswith (name p : string) : bool := String.prefix p name.

(** A [dict] from names to lists, in insertion order (Python keeps it and
    [json.dump] writes it). *)
Abbreviation dict V := (list (string * list V)).

(** [if k not in d: d[k] = []] followed by [d[k].append(v)]. *)
Fixpoint dict_append {V} (k : string) (v : V) (d : dict V) : dict V :=
  match d with
  | [] => [(k, [v])]
  | (k', vs) :: d' =>
      if String.eqb k k' then (k', vs ++ [v]) :: d'
      else (k', vs) :: dict_append k v d'
  end.

Definition keys {V} (d : dict V) : list string := map fst d.

(** [d.get(k, [])] *)
Fixpoint dict_find {V} (k : string) (d : dict V) : list V :=
  match d with
  | [] => []
  | (k', vs) :: d' => if String.eqb k k' then vs else dict_find k d'
  end.

(** The interpreter's enumeration order of a [set] of strings.  It depends
    on the per-process string hashing, so it is a parameter of a run; all
    that is known is that it enumerates the set. *)
Record runtime : Type := mkRuntime {
  set_iter : gset string -> list string;
  set_iter_perm : forall X, set_iter X ≡ₚ elements X
}.

(* ================================================================== *)
(** ** function_analyzer.py *)
(* ================================================================== *)

Module function_analyzer.
Import Chr Re.

(** [r'function\s+(\w+)\s*\('] *)
Definition pattern1 : regex :=
  seqs [lit "function"; plus is_space; Grp 1 (plus is_word);
        Star true is_space; Lit "("].

(** [r'(?:static\s+)?(\w+)\s*\([^)]*\)\s*{'] *)
Definition pattern2 : regex :=
  seqs [opt (Seq (lit "static") (plus is_space)); Grp 1 (plus is_word);
        Star true is_space; Lit "("; Star true (none_of ")"); Lit ")";
        Star true is_space; Lit "{"].

(** [r'(?:const|let|var)\s+(\w+)\s*=\s*(?:\([^)]*\)|[^=]+)\s*=>'] *)
Definition pattern3 : regex :=
  seqs [Alt (lit "const") (Alt (lit "let") (lit "var")); plus is_space;
        Grp 1 (plus is_word); Star true is_space; Lit "=";
        Star true is_space;
        Alt (seqs [Lit "("; Star true (none_of ")"); Lit ")"])
            (plus (none_of "="));
        Star true is_space; lit "=>"].

(** [r'(\w+)\s*:\s*function\s*\('] *)
Definition pattern4 : regex :=
  seqs [Grp 1 (plus is_word); Star true is_space; Lit ":";
        Star true is_space; lit "function"; Star true is_space; Lit "("].

Definition names (l : list text) : gset string := list_to_set (map str l).

Definition extract_function_definitions (content : text) : gset string :=
  let functions : gset string := ∅ in
  let functions := functions ∪ names (findall pattern1 content) in
  let functions := functions ∪ names (findall pattern2 content) in
  let functions := functions ∪ names (findall pattern3 content) in
  let functions := functions ∪ names (findall pattern4 content) in
  functions.

Record call : Type := mkCall { call_name : string; call_line : nat }.

(** [r'(\w+)\s*\('] *)
Definition call_pattern : regex :=
  seqs [Grp 1 (plus is_word); Star true is_space; Lit "("].

(** JavaScript keywords and common built-ins left out of the calls. *)
Definition excluded : list string :=
  ["if"; "for"; "while"; "switch"; "catch"; "function";
   "return"; "throw"; "new"; "typeof"; "instanceof";
   "console"; "Array"; "Object"; "String"; "Number";
   "Date"; "Math"; "JSON"; "parseInt"; "parseFloat"].

(** [content[:match.start()].count('\n') + 1] *)
Definition line_of (content : text) (m : Match) : nat :=
  count nl (take (m_start m) content) + 1.

Definition extract_function_calls (content : text) : list call :=
  flat_map
    (fun m =>
       let func_name := str (group 1 (m_groups m)) in
       if existsb (String.eqb func_name) excluded then []
       else [mkCall func_name (line_of content m)])
    (finditer call_pattern content).

Record reference : Type := mkReference {
  ref_type : string;
  ref_name : string;
  ref_member : option string;
  ref_line : nat
}.

(** [r'new\s+(\w+)\s*\('] *)
Definition class_pattern1 : regex :=
  seqs [lit "new"; plus is_space; Grp 1 (plus is_word);
        Star true is_space; Lit "("].

(** [r'(\w+)\.(\w+)'] *)
Definition class_pattern2 : regex :=
  seqs [Grp 1 (plus is_word); Lit "."; Grp 2 (plus is_word)].

(** [class_name[0].isupper()], on ASCII text. *)
Definition first_isupper (s : text) : bool :=
  match s with
  | c :: _ => is_upper c
  | [] => false
  end.

Definition extract_class_references (content : text) : list reference :=
  let references :=
    map (fun m => mkReference "instantiation" (str (group 1 (m_groups m)))
                    None (line_of content m))
        (finditer class_pattern1 content) in
  references ++
  flat_map
    (fun m =>
       let class_name := group 1 (m_groups m) in
       if first_isupper class_name then
         [mkReference "static_reference" (str class_name)
            (Some (str (group 2 (m_groups m)))) (line_of content m)]
       else [])
    (finditer class_pattern2 content).

(** [r'//.*$'] with [re.MULTILINE] *)
Definition line_comment : regex := seqs [lit "//"; Star true is_dot; Eol].

(** [r'/\*[\s\S]*?\*/'] *)
Definition block_comment : regex :=
  seqs [lit "/*"; Star false is_any; lit "*/"].

(** The two [re.sub] calls of [analyze_file], in the source's order. *)
Definition strip_comments (content : text) : text :=
  let content := sub_empty line_comment content in
  let content := sub_empty block_comment content in
  content.

Record analysis : Type := mkAnalysis {
  definitions : gset string;
  calls : list call;
  class_references : list reference
}.

(** [analyze_file], on the text read from the file. *)
Definition analyze_file (content : text) : analysis :=
  let content := strip_comments content in
  mkAnalysis (extract_function_definitions content)
             (extract_function_calls content)
             (extract_class_references content).

(** *** [main] *)

(** An occurrence of a call: [{'file': ..., 'line': ...}]. *)
Record call_loc : Type := mkCallLoc { loc_file : string; loc_line : nat }.

(** An occurrence of a class reference. *)
Record ref_loc : Type := mkRefLoc {
  rloc_file : string;
  rloc_line : nat;
  rloc_type : string;
  rloc_member : string
}.

(** Google Apps Script built-in services. *)
Definition gas_builtins : gset string :=
  list_to_set
    ["SpreadsheetApp"; "GmailApp"; "DriveApp"; "PropertiesService";
     "CacheService"; "UrlFetchApp"; "Utilities"; "ScriptApp";
     "CalendarApp"; "DocumentApp"; "FormApp"; "GroupsApp";
     "HtmlService"; "LanguageApp"; "LockService"; "MailApp";
     "Session"; "SitesApp"; "SlidesApp"; "Logger"; "console"].

(** The values the first pass of [main] builds up. *)
Record collected : Type := mkCollected {
  all_definitions : gset string;
  all_calls : dict call_loc;
  all_class_refs : dict ref_loc;
  file_definitions : list (string * gset string)
}.

Definition empty_collected : collected := mkCollected ∅ [] [] [].

(** [ref.get('member', '')] *)
Definition member_or_empty (r : reference) : string :=
  match ref_member r with
  | Some m => m
  | None => ""
  end.

(** One round of the first loop of [main], for the file [filepath]
    holding [content]. *)
Definition collect (st : collected) (file : string * text) : collected :=
  let '(filepath, content) := file in
  let a := analyze_file content in
  mkCollected
    (all_definitions st ∪ definitions a)
    (fold_left
       (fun d c => dict_append (call_name c)
                     (mkCallLoc filepath (call_line c)) d)
       (calls a) (all_calls st))
    (fold_left
       (fun d r => dict_append (ref_name r)
                     (mkRefLoc filepath (ref_line r) (ref_type r)
                        (member_or_empty r)) d)
       (class_references a) (all_class_refs st))
    (file_definitions st ++ [(filepath, definitions a)]).

Definition first_pass (gs_files : list (string * text)) : collected :=
  fold_left collect gs_files empty_collected.

(** The inner loop over [all_definitions], left at the first class name
    that [func_name] starts with. *)
Definition is_method (rt : runtime) (D : gset string)
    (func_name : string) : bool :=
  existsb (fun class_name => startswith func_name class_name)
          (set_iter rt D).

(** The test that puts [func_name] into [undefined_functions]. *)
Definition function_undefined (rt : runtime) (D : gset string)
    (func_name : string) : bool :=
  bool_decide (func_name ∉ D) && bool_decide (func_name ∉ gas_builtins)
  && negb (is_method rt D func_name).

Definition find_undefined_functions (rt : runtime) (D : gset string)
    (all_calls : dict call_loc) : dict call_loc :=
  List.filter (fun kv => function_undefined rt D (fst kv)) all_calls.

Definition class_undefined (D : gset string) (class_name : string) : bool :=
  bool_decide (class_name ∉ D) && bool_decide (class_name ∉ gas_builtins).

Definition find_undefined_classes (D : gset string)
    (all_class_refs : dict ref_loc) : dict ref_loc :=
  List.filter (fun kv => class_undefined D (fst kv)) all_class_refs.

Record summary : Type := mkSummary {
  files_analyzed : nat;
  total_definitions : nat;
  total_calls : nat;
  n_undefined_functions : nat;
  n_undefined_classes : nat
}.

(** The document written to [function_analysis_report.json]. *)
Record report : Type := mkReport {
  rep_summary : summary;
  undefined_functions : dict call_loc;
  undefined_classes : dict ref_loc;
  rep_all_definitions : list string
}.

(** [main] on the [*.gs] files of the project, in the order the
    directory listing gives them, each given by the text read from it:
    the report written and the value returned.  What [exit(main())]
    makes of that value, and a file that cannot be read, are in
    [process.analyzer_process]. *)
Definition main (rt : runtime) (gs_files : list (string * text))
    : report * nat :=
  let st := first_pass gs_files in
  let undefined_functions :=
    find_undefined_functions rt (all_definitions st) (all_calls st) in
  let undefined_classes :=
    find_undefined_classes (all_definitions st) (all_class_refs st) in
  let report :=
    mkReport
      (mkSummary (length gs_files) (size (all_definitions st))
         (length (all_calls st)) (length undefined_functions)
         (length undefined_classes))
      undefined_functions undefined_classes
      (set_iter rt (all_definitions st)) in
  (report, length undefined_functions + length undefined_classes).

(** *** Notions the statements below refer to *)

(** A run in which a set is enumerated in the order of [elements], and
    one in which it is enumerated in the opposite order. *)
Definition rt_forward : runtime :=
  mkRuntime elements (fun X => reflexivity (elements X)).

Definition rt_backward : runtime :=
  mkRuntime (fun X => rev (elements X))
            (fun X => Permutation_sym (Permutation_rev (elements X))).

(** The condition for "undefined" with the prefix test the way the
    aggregator section of the specification words it: [n] is not a
    prefix of a name in [D]. *)
Definition undefined_as_worded (D : gset string) (n : string) : Prop :=
  (n ∉ D) ∧ (n ∉ gas_builtins) ∧ ¬ ∃ d, d ∈ D ∧ startswith d n = true.

(** Two reports that [json.dump] writes to the same bytes up to the
    order of the keys of the maps: the summaries agree, the two finding
    maps have the same entries, and the array [all_definitions] is the
    same list. *)
Definition same_document (r1 r2 : report) : Prop :=
  rep_summary r1 = rep_summary r2
  ∧ undefined_functions r1 ≡ₚ undefined_functions r2
  ∧ undefined_classes r1 ≡ₚ undefined_classes r2
  ∧ rep_all_definitions r1 = rep_all_definitions r2.

(** The comments of a script as the language delimits them: [//] to the
    end of the line and [/* ... */], a comment opener inside a comment
    being plain text.  [js_code st s] is what of [s] lies outside of
    all comments. *)
Inductive lexer_state : Type := InCode | InLineComment | InBlockComment.

Fixpoint js_code (st : lexer_state) (s : text) : text :=
  match s with
  | [] => []
  | c :: s' =>
      match st with
      | InCode =>
          if Ascii.eqb c "/" then
            match s' with
            | c2 :: s'' =>
                if Ascii.eqb c2 "/" then js_code InLineComment s'
                else if Ascii.eqb c2 "*" then js_code InBlockComment s''
                else c :: js_code InCode s'
            | [] => [c]
            end
          else c :: js_code InCode s'
      | InLineComment =>
          if Ascii.eqb c nl then c :: js_code InCode s'
          else js_code InLineComment s'
      | InBlockComment =>
          if Ascii.eqb c "*" then
            match s' with
            | c2 :: s'' =>
                if Ascii.eqb c2 "/" then js_code InCode s''
                else js_code InBlockComment s'
            | [] => []
            end
          else js_code InBlockComment s'
      end
  end.

(** The offsets at which [p] occurs in [s], from offset [pos] on. *)
Fixpoint offsets_of (p : text) (pos : nat) (s : text) : list nat :=
  match s with
  | [] => []
  | _ :: s' =>
      (if bool_decide (take (length p) s = p) then [pos] else [])
      ++ offsets_of p (S pos) s'
  end.

(** The 1-based line of offset [i] of a file. *)
Definition file_line (content : text) (i : nat) : nat :=
  count nl (take i content) + 1.

(** A header [kw (...) {]: the keyword, white space, a parenthesised
    part without a closing parenthesis inside, white space, a brace. *)
Definition header (kw : string) (ws1 args ws2 : text) : text :=
  txt kw ++ ws1 ++ txt "(" ++ args ++ txt ")" ++ ws2 ++ txt "{".

Definition all_of (p : ascii -> bool) (s : text) : Prop :=
  forall c, c ∈ s -> p c = true.

End function_analyzer.

(* ================================================================== *)
(** ** url_test.py *)
(* ================================================================== *)

Module url_test.
Import Chr Re.

(** *** Exceptions *)

(** A raised exception (an instance of [Exception]), with what the
    handlers of [test_url] look at: whether it is a
    [requests.exceptions.Timeout], whether it is a
    [requests.exceptions.ConnectionError], and its [str()]. *)
Record exn : Type := mkExn {
  is_timeout : bool;
  is_connection_error : bool;
  exn_str : string
}.

(** The outcome of a Python call: a value, or a raised exception. *)
Inductive result (A : Type) : Type :=
| Ok (a : A)
| Raise (e : exn).
Arguments Ok {A} a.
Arguments Raise {A} e.

#[export] Instance result_bind : MBind result :=
  fun A B (f : A -> result B) (m : result A) =>
    match m with
    | Ok a => f a
    | Raise e => Raise e
    end.

(** *** [extract_urls_from_file] *)

(** The characters the class of the URL pattern excludes besides white
    space: the single quote, [<>{}|], the backslash, the caret, the
    backquote, the square brackets and (code 34) the double quote. *)
Definition url_stop : text := txt "'<>{}|\^`[]" ++ ["034"%char].

Definition url_char (c : ascii) : bool :=
  negb (is_space c || existsb (Ascii.eqb c) url_stop).

(** [https?://] followed by one or more characters outside that class. *)
Definition url_pattern : regex :=
  seqs [lit "http"; opt (Lit "s"); lit "://"; plus url_char].

Fixpoint drop_while (p : ascii -> bool) (s : text) : text :=
  match s with
  | [] => []
  | c :: s' => if p c then drop_while p s' else s
  end.

(** [s.rstrip(chars)] *)
Definition rstrip (chars : string) (s : text) : text :=
  rev (drop_while (fun c => one_of chars c) (rev s)).

(** The file at [filepath] read as [content]; [None] when opening or
    decoding it raises, in which case the error is printed and no URL
    is returned. *)
Definition extract_urls_from_file (filepath : string)
    (content : option text) : list (string * string) :=
  match content with
  | Some content =>
      let found_urls := findall0 url_pattern content in
      map (fun url => (str (rstrip ".,;:!?)" url), filepath)) found_urls
  | None => []
  end.

(** *** [test_url] *)

(** What the network and the URL library answer during a run:
    [urlparse(url).hostname] and the status code of
    [requests.head(url, ...)], either of which may raise. *)
Record env : Type := mkEnv {
  urlparse_hostname : string -> result (option string);
  requests_head : string -> result Z
}.

Fixpoint is_prefix (p s : text) : bool :=
  match p, s with
  | [], _ => true
  | c :: p', c' :: s' => Ascii.eqb c c' && is_prefix p' s'
  | _ :: _, [] => false
  end.

(** [p in s] for strings. *)
Fixpoint contains (p s : text) : bool :=
  match s with
  | [] => is_prefix p []
  | _ :: s' => is_prefix p s || contains p s'
  end.

(** [s.replace(old, new)] for a non-empty [old]; [skip] counts the
    characters of the occurrence being replaced. *)
Fixpoint replace_from (old new : text) (skip : nat) (s : text) : text :=
  match s with
  | [] => []
  | c :: s' =>
      match skip with
      | S n => replace_from old new n s'
      | 0 =>
          if is_prefix old s
          then new ++ replace_from old new (length old - 1) s'
          else c :: replace_from old new 0 s'
      end
  end.

Definition replace (old new s : string) : string :=
  str (replace_from (txt old) (txt new) 0 (txt s)).

Definition str_in (p s : string) : bool := contains (txt p) (txt s).

(** [f'{n}'] for an [int]. *)
Definition format_int (n : Z) : string :=
  NilZero.string_of_int (Z.to_int n).

Definition skipped_hosts : list string :=
  ["localhost"; "example.com"; "127.0.0.1"].

(** [parsed.hostname in [...]]; the hostname may be [None]. *)
Definition hostname_skipped (h : option string) : bool :=
  match h with
  | Some h => existsb (String.eqb h) skipped_hosts
  | None => false
  end.

(** The rewrite of GitHub URLs to the API host before the request. *)
Definition api_url (url : string) : string :=
  if str_in "github.com" url && str_in "/repos/" url
     && negb (str_in "/api.github.com" url)
  then replace "github.com" "api.github.com/repos" url
  else url.

(** The body of the [try] block. *)
Definition probe (e : env) (url : string) : result (string * string) :=
  hostname ← urlparse_hostname e url;
  if hostname_skipped hostname then Ok ("skip", "Local/example URL")
  else
    let url := api_url url in
    status_code ← requests_head e url;
    if (status_code <? 400)%Z
    then Ok ("success", "Status: " +:+ format_int status_code)
    else Ok ("fail", "Status: " +:+ format_int status_code).

(** The three [except] clauses, tried in the source's order. *)
Definition handle (x : exn) : result (string * string) :=
  if is_timeout x then Ok ("fail", "Timeout")
  else if is_connection_error x then Ok ("fail", "Connection error")
  else Ok ("fail", exn_str x).

Definition test_url (e : env) (url : string) : result (string * string) :=
  match probe e url with
  | Ok r => Ok r
  | Raise x => handle x
  end.

(** *** [main] *)

(** An element of the result lists. *)
Record entry : Type := mkEntry {
  e_url : string;
  e_files : list string;
  e_status : string;
  e_message : string
}.

(** The [KeyError] a subscript with an absent key raises. *)
Definition key_error (k : string) : exn := mkExn false false k.

(** [d[k]] *)
Fixpoint dict_get {V} (k : string) (d : dict V) : result (list V) :=
  match d with
  | [] => Raise (key_error k)
  | (k', vs) :: d' => if String.eqb k k' then Ok vs else dict_get k d'
  end.

(** [d[k].append(v)], without the guard that creates the key. *)
Fixpoint dict_get_append {V} (k : string) (v : V) (d : dict V)
    : result (dict V) :=
  match d with
  | [] => Raise (key_error k)
  | (k', vs) :: d' =>
      if String.eqb k k' then Ok ((k', vs ++ [v]) :: d')
      else d'' ← dict_get_append k v d'; Ok ((k', vs) :: d'')
  end.

(** [all_urls]: the pairs [(url, filepath)] of all files, in order. *)
Definition collect_urls (files_to_check : list (string * option text))
    : list (string * string) :=
  flat_map (fun f => extract_urls_from_file (fst f) (snd f)) files_to_check.

(** "Remove duplicates while preserving file info". *)
Definition unique (all_urls : list (string * string)) : dict string :=
  fold_left (fun d uf => dict_append (fst uf) (snd uf) d) all_urls [].

Definition empty_results : dict entry :=
  [("success", []); ("fail", []); ("skip", [])].

(** The loop that tests each unique URL and files its result. *)
Fixpoint test_each (e : env) (items : dict string) (results : dict entry)
    : result (dict entry) :=
  match items with
  | [] => Ok results
  | (url, files) :: items' =>
      sm ← test_url e url;
      results ← dict_get_append (fst sm)
                  (mkEntry url files (fst sm) (snd sm)) results;
      test_each e items' results
  end.

(** [main] on the files found by the three globs, in order: the results
    written to [url_test_results.json] and the argument of [sys.exit]. *)
Definition main (e : env) (files_to_check : list (string * option text))
    : result (dict entry * nat) :=
  let all_urls := collect_urls files_to_check in
  let unique_urls := unique all_urls in
  results ← test_each e unique_urls empty_results;
  failed ← dict_get "fail" results;
  Ok (results, length failed).

(** *** Notions the statements below refer to *)

(** The entries of the three result lists together. *)
Definition all_entries (results : dict entry) : list entry :=
  flat_map snd results.

(** The files of the occurrences of [url], one per occurrence, in the
    order of [all_urls]. *)
Definition found_in (all_urls : list (string * string)) (url : string)
    : list string :=
  map snd (List.filter (fun uf => String.eqb (fst uf) url) all_urls).

(** The entries of a list that are about [url]. *)
Definition entries_for (url : string) (l : list entry) : list entry :=
  List.filter (fun en => String.eqb (e_url en) url) l.

(** The entry the loop of [main] files for an item of [unique_urls]. *)
Definition entry_of (e : env) (item : string * list string) : entry :=
  match test_url e (fst item) with
  | Ok sm => mkEntry (fst item) (snd item) (fst sm) (snd sm)
  | Raise _ => mkEntry (fst item) (snd item) "" ""
  end.

(** A network in which every host is [x.org] and answers 404. *)
Definition env_404 : env :=
  mkEnv (fun _ => Ok (Some "x.org")) (fun _ => Ok 404%Z).

End url_test.

(* ================================================================== *)
(** ** Notions for the further properties *)
(* ================================================================== *)

Module Charset.

(** The characters of the ASCII range. *)
Definition is_ascii (c : ascii) : bool := Nat.ltb (Chr.code c) 128.

(** An ASCII text: on such a text the classes of [Chr] are exactly the
    classes of the scripts' patterns. *)
Definition ascii_text (s : text) : Prop := forallb is_ascii s = true.

End Charset.

Module process.

(** The exit status the parent process sees after [exit(n)] or
    [sys.exit(n)] with an integer [n]: its low eight bits (POSIX). *)
Definition exit_status (code : nat) : nat := code mod 256.

(** The [*.gs] files as [open(...).read()] finds them, [None] for a file
    that cannot be opened or decoded.  [analyze_file] has no handler: the
    first such file ends the run. *)
Fixpoint read_all (files : list (string * option text))
    : option (list (string * text)) :=
  match files with
  | [] => Some []
  | (filepath, None) :: _ => None
  | (filepath, Some content) :: files' =>
      match read_all files' with
      | Some gs_files => Some ((filepath, content) :: gs_files)
      | None => None
      end
  end.

(** [function_analyzer.py] run as a program, [exit(main())]: the report
    written, if any, and the exit status.  An exception that nothing
    catches leaves no report (it is written last) and status 1. *)
Definition analyzer_process (rt : runtime)
    (files : list (string * option text))
    : option function_analyzer.report * nat :=
  match read_all files with
  | Some gs_files =>
      let r := function_analyzer.main rt gs_files in
      (Some (fst r), exit_status (snd r))
  | None => (None, 1)
  end.

(** [url_test.py] run as a program: [main()] ends in [sys.exit]. *)
Definition link_checker_process (e : url_test.env)
    (files_to_check : list (string * option text))
    : option (dict url_test.entry) * nat :=
  match url_test.main e files_to_check with
  | url_test.Ok r => (Some (fst r), exit_status (snd r))
  | url_test.Raise _ => (None, 1)
  end.

(** A script of 256 calls, [0();1(); ... 255();], none of them defined. *)
Definition many_calls : text :=
  flat_map
    (fun i => txt (NilEmpty.string_of_uint (Nat.to_uint i)) ++ txt "();")
    (seq 0 256).

End process.

Module Lang.
Import Re.

(** The texts a pattern matches, read off its syntax: what a successful
    run of the matcher consumes is one of them. *)
Fixpoint lang (r : regex) (w : text) : Prop :=
  match r with
  | Lit c => w = [c]
  | Cls p => ∃ c, w = [c] ∧ p c = true
  | Eps => w = []
  | Eol => w = []
  | Seq r1 r2 => ∃ w1 w2, w = w1 ++ w2 ∧ lang r1 w1 ∧ lang r2 w2
  | Alt r1 r2 => lang r1 w ∨ lang r2 w
  | Star _ p => forallb p w = true
  | Grp _ r0 => lang r0 w
  end.

(** Patterns without a capturing group. *)
Fixpoint no_groups (r : regex) : bool :=
  match r with
  | Seq r1 r2 | Alt r1 r2 => no_groups r1 && no_groups r2
  | Grp _ _ => false
  | _ => true
  end.

(** An identifier: a non-empty text of word characters. *)
Definition identifier (w : text) : Prop :=
  w ≠ [] ∧ forallb Chr.is_word w = true.

End Lang.

Module Sites.
Import function_analyzer.
(** The call sites of the name [n] in the files, file by file and in the
    order of the calls of each file. *)
Definition call_sites (gs_files : list (string * text)) (n : string)
    : list call_loc :=
  flat_map
    (fun file =>
       map (fun c => mkCallLoc (fst file) (call_line c))
           (List.filter (fun c => String.eqb (call_name c) n)
              (calls (analyze_file (snd file)))))
    gs_files.
End Sites.

(* ================================================================== *)
(** * Properties *)
(* ================================================================== *)

Set Warnings "-clear-no-such-hyp".
Local Open Scope nat_scope.

(** Closed decidable goals are settled by evaluation. *)
Ltac by_computation := apply (bool_decide_unpack _); vm_compute; exact I.

(* ================================================================== *)
(** ** Insertion-ordered dictionaries *)
(* ================================================================== *)

Module dict_facts.

Lemma elem_of_keys_dict_append {V} k (v : V) (d : dict V) x :
  x ∈ keys (dict_append k v d) ↔ x = k ∨ x ∈ keys d.
Proof.
  induction d as [|[k' vs] d IH]; simpl.
  - rewrite list_elem_of_singleton. set_solver.
  - destruct (String.eqb_spec k k') as [->|Hne]; simpl.
    + rewrite elem_of_cons. naive_solver.
    + rewrite !elem_of_cons, IH. naive_solver.
Qed.

Lemma NoDup_keys_dict_append {V} k (v : V) (d : dict V) :
  NoDup (keys d) → NoDup (keys (dict_append k v d)).
Proof.
  induction d as [|[k' vs] d IH]; simpl; intros Hnd.
  - apply NoDup_singleton.
  - destruct (String.eqb_spec k k') as [->|Hne]; simpl; [done|].
    apply NoDup_cons in Hnd as [Hk' Hnd]. apply NoDup_cons. split.
    + fold (keys (dict_append k v d)).
      rewrite elem_of_keys_dict_append. naive_solver.
    + by apply IH.
Qed.

(** Folding [dict_append] over a list keeps the keys distinct. *)
Lemma NoDup_keys_fold {A V} (f : A → string) (g : A → V) l (d : dict V) :
  NoDup (keys d) →
  NoDup (keys (fold_left (λ d c, dict_append (f c) (g c) d) l d)).
Proof.
  revert d. induction l as [|a l IH]; simpl; intros d Hnd; [done|].
  by apply IH, NoDup_keys_dict_append.
Qed.

Lemma elem_of_keys_filter {V} (f : string → bool) (d : dict V) x :
  x ∈ keys (List.filter (λ kv, f kv.1) d) ↔ x ∈ keys d ∧ f x = true.
Proof.
  induction d as [|[k vs] d IH]; simpl.
  - rewrite elem_of_nil. naive_solver.
  - destruct (f k) eqn:Hk; simpl; rewrite ?elem_of_cons, IH;
      naive_solver congruence.
Qed.

Lemma NoDup_keys_filter {V} (f : string * list V → bool) (d : dict V) :
  NoDup (keys d) → NoDup (keys (List.filter f d)).
Proof.
  induction d as [|kv d IH]; simpl; intros Hnd; [done|].
  apply NoDup_cons in Hnd as [Hk Hnd].
  destruct (f kv); simpl; [|by apply IH].
  apply NoDup_cons. split; [|by apply IH].
  intros Hin. apply Hk. unfold keys in *.
  apply list_elem_of_fmap in Hin as (kv' & -> & Hin).
  apply list_elem_of_fmap. exists kv'. split; [done|].
  apply list_elem_of_In, filter_In in Hin as [Hin _].
  by apply list_elem_of_In.
Qed.

Lemma existsb_Permutation {A} (f : A → bool) (l1 l2 : list A) :
  l1 ≡ₚ l2 → existsb f l1 = existsb f l2.
Proof.
  induction 1 as [|x l1 l2 _ IH|x y l|l1 l2 l3 _ IH1 _ IH2]; simpl.
  - done.
  - by rewrite IH.
  - destruct (f x), (f y); done.
  - congruence.
Qed.

End dict_facts.

(* ================================================================== *)
(** ** The matcher *)
(* ================================================================== *)

Module Re_facts.
Import Chr Re.

Lemma space_not_word c : is_space c = true → is_word c = false.
Proof. destruct c as [[] [] [] [] [] [] [] []]; by vm_compute. Qed.

Lemma run_Seq {R} r1 r2 g s (k : groups → text → option R) :
  run (Seq r1 r2) g s k = run r1 g s (λ g' s', run r2 g' s' k).
Proof. reflexivity. Qed.

Lemma run_opt {R} r g s (k : groups → text → option R) :
  run (opt r) g s k
  = match run r g s k with Some x => Some x | None => k g s end.
Proof. reflexivity. Qed.

Section Star.
Context {R : Type}.
Implicit Types (k : text → option R) (p : ascii → bool).

(** A repeat stops where the next character is outside the class. *)
Lemma star_stop greedy p s k :
  (∀ c s', s = c :: s' → p c = false) → star greedy p s k = k s.
Proof.
  destruct s as [|c s']; simpl; [done|].
  intros H. by rewrite (H c s' eq_refl).
Qed.

(** A greedy repeat runs over a whole block of the class when the
    continuation succeeds behind it. *)
Lemma star_greedy_run p w s k x :
  forallb p w = true →
  (∀ c s', s = c :: s' → p c = false) →
  k s = Some x →
  star true p (w ++ s) k = Some x.
Proof.
  intros Hw Hs Hk. induction w as [|c w IH]; simpl.
  - by rewrite star_stop.
  - simpl in Hw. apply andb_true_iff in Hw as [-> Hw].
    by rewrite IH.
Qed.
End Star.

(** The scan reaches every offset that no earlier match runs over, and
    reports the match found there. *)
Lemma scan_reaches r pre t g rest : ∀ pos skip,
  skip ≤ length pre →
  match_at r t = Some (g, rest) →
  (∀ m, m ∈ scan r pos skip (pre ++ t) →
        m_start m < pos + length pre → m_end m ≤ pos + length pre) →
  ∃ e, mkMatch (pos + length pre) e g ∈ scan r pos skip (pre ++ t).
Proof.
  induction pre as [|c pre IH]; simpl; intros pos skip Hskip Hm Hno.
  - assert (skip = 0) as -> by lia. rewrite Nat.add_0_r.
    destruct t as [|c t]; simpl; rewrite Hm; eexists; apply elem_of_cons;
      by left.
  - destruct skip as [|n].
    + destruct (match_at r (c :: pre ++ t)) as [[g0 rest0]|] eqn:Hm0.
      * set (len := length (c :: pre ++ t) - length rest0) in *.
        assert (Hlen : pos + len ≤ pos + S (length pre)).
        { apply (Hno (mkMatch pos (pos + len) g0)); simpl; [|lia].
          apply elem_of_cons. by left. }
        destruct (IH (S pos) (len - 1)) as [e He]; [lia|done| |].
        { intros m Hin. rewrite Nat.add_succ_comm. apply Hno.
          apply elem_of_cons. by right. }
        exists e. apply elem_of_cons. right.
        by rewrite <- Nat.add_succ_comm.
      * destruct (IH (S pos) 0) as [e He]; [lia|done| |].
        { intros m Hin. rewrite Nat.add_succ_comm. by apply Hno. }
        exists e. by rewrite <- Nat.add_succ_comm.
    + destruct (IH (S pos) n) as [e He]; [lia|done| |].
      { intros m Hin. rewrite Nat.add_succ_comm. by apply Hno. }
      exists e. by rewrite <- Nat.add_succ_comm.
Qed.

Lemma findall_reaches r pre t g rest :
  match_at r t = Some (g, rest) →
  (∀ m, m ∈ finditer r (pre ++ t) →
        m_start m < length pre → m_end m ≤ length pre) →
  group 1 g ∈ findall r (pre ++ t).
Proof.
  intros Hm Hno.
  destruct (scan_reaches r pre t g rest 0 0) as [e He]; [lia|done|done|].
  unfold findall. apply list_elem_of_fmap.
  by exists (mkMatch (0 + length pre) e g).
Qed.

End Re_facts.

(* ================================================================== *)
(** ** The analyzer *)
(* ================================================================== *)

Module analyzer_facts.
Import function_analyzer dict_facts.

(** The inner loop finds a class name exactly when some definition is a
    prefix of the called name, whatever the enumeration order. *)
Lemma is_method_true rt D n :
  is_method rt D n = true ↔ ∃ c, c ∈ D ∧ startswith n c = true.
Proof.
  unfold is_method. rewrite existsb_exists.
  split; intros (c & Hc & Hp); exists c; split; try done.
  - apply list_elem_of_In in Hc. rewrite (set_iter_perm rt D) in Hc.
    by apply elem_of_elements in Hc.
  - apply list_elem_of_In. rewrite (set_iter_perm rt D).
    by apply elem_of_elements.
Qed.

Lemma is_method_order rt1 rt2 D n : is_method rt1 D n = is_method rt2 D n.
Proof.
  unfold is_method. apply existsb_Permutation.
  by rewrite !set_iter_perm.
Qed.

Lemma function_undefined_true rt D n :
  function_undefined rt D n = true ↔
  (n ∉ D) ∧ (n ∉ gas_builtins) ∧ ¬ ∃ c, c ∈ D ∧ startswith n c = true.
Proof.
  unfold function_undefined.
  rewrite !andb_true_iff, !bool_decide_eq_true, negb_true_iff.
  rewrite <- is_method_true with (rt := rt).
  destruct (is_method rt D n); naive_solver.
Qed.

Lemma collect_keeps_calls_distinct st file :
  NoDup (keys (all_calls st)) → NoDup (keys (all_calls (collect st file))).
Proof.
  destruct file as [filepath content]. simpl. apply NoDup_keys_fold.
Qed.

Lemma collect_keeps_refs_distinct st file :
  NoDup (keys (all_class_refs st)) →
  NoDup (keys (all_class_refs (collect st file))).
Proof.
  destruct file as [filepath content]. simpl. apply NoDup_keys_fold.
Qed.

Lemma first_pass_keys_distinct files :
  NoDup (keys (all_calls (first_pass files)))
  ∧ NoDup (keys (all_class_refs (first_pass files))).
Proof.
  unfold first_pass.
  assert (Hinv : ∀ st,
    NoDup (keys (all_calls st)) ∧ NoDup (keys (all_class_refs st)) →
    NoDup (keys (all_calls (fold_left collect files st)))
    ∧ NoDup (keys (all_class_refs (fold_left collect files st)))).
  { induction files as [|f files IH]; simpl; intros st [H1 H2]; [done|].
    apply IH. split.
    - by apply collect_keeps_calls_distinct.
    - by apply collect_keeps_refs_distinct. }
  apply Hinv. split; apply NoDup_nil_2.
Qed.

(** The definitions of every scanned file are project-wide definitions. *)
Lemma first_pass_definitions files filepath content :
  (filepath, content) ∈ files →
  definitions (analyze_file content) ⊆ all_definitions (first_pass files).
Proof.
  unfold first_pass.
  assert (Hmono : ∀ fs st,
    all_definitions st ⊆ all_definitions (fold_left collect fs st)).
  { induction fs as [|[fp c] fs IH]; simpl; intros st; [done|].
    etrans; [|apply IH]. simpl. set_solver. }
  generalize empty_collected.
  induction files as [|[fp c] files IH]; intros st Hin.
  - by apply elem_of_nil in Hin.
  - apply elem_of_cons in Hin as [Heq|Hin]; simpl.
    + inversion Heq; subst. etrans; [|apply Hmono]. simpl. set_solver.
    + by apply IH.
Qed.

Lemma prefix_suppresses rt files c n :
  c ∈ all_definitions (first_pass files) →
  startswith n c = true →
  n ∉ keys (undefined_functions (main rt files).1).
Proof.
  intros Hc Hp. simpl. unfold find_undefined_functions.
  rewrite (elem_of_keys_filter
             (function_undefined rt (all_definitions (first_pass files)))).
  rewrite function_undefined_true. intros (_ & _ & _ & Hno).
  apply Hno. by exists c.
Qed.

End analyzer_facts.

Module header_facts.
Import Chr Re function_analyzer Re_facts.

(** The method pattern, tried at the keyword of a header, matches the
    header and captures the keyword, provided its optional [static]
    prefix does not apply there. *)
Lemma pattern2_at_header kw ws1 args ws2 post :
  kw ≠ [] →
  forallb is_word kw = true →
  forallb is_space ws1 = true →
  forallb (none_of ")") args = true →
  forallb is_space ws2 = true →
  (∀ (k : groups → text → option (groups * text)) rest,
     run (Seq (lit "static") (plus is_space)) [] (kw ++ rest) k = None) →
  match_at pattern2
    (kw ++ ws1 ++ txt "(" ++ args ++ txt ")" ++ ws2 ++ txt "{" ++ post)
  = Some ([(1, kw)], post).
Proof.
  intros Hne Hkw Hws1 Hargs Hws2 Hstatic.
  unfold match_at, pattern2. cbn [seqs].
  rewrite run_Seq, run_opt, Hstatic.
  destruct kw as [|c kw]; [done|]. simpl in Hkw.
  apply andb_true_iff in Hkw as [Hc Hkw].
  cbn [run plus app]. rewrite Hc.
  apply star_greedy_run; [done|..].
  { intros c' s' Heq. destruct ws1 as [|w ws1]; simpl in Heq.
    - by inversion Heq.
    - inversion Heq; subst. simpl in Hws1.
      apply andb_true_iff in Hws1 as [Hw _]. by apply space_not_word. }
  apply star_greedy_run; [done|by intros ? ? [= <- _]|].
  cbn [txt list_ascii_of_string app]. rewrite Ascii.eqb_refl.
  apply star_greedy_run; [done|by intros ? ? [= <- _]|].
  rewrite Ascii.eqb_refl.
  apply star_greedy_run; [done|by intros ? ? [= <- _]|].
  rewrite Ascii.eqb_refl. do 3 f_equal.
  set (rest := ws1 ++ _).
  replace (length (c :: kw ++ rest) - length rest)
    with (length (c :: kw)) by (simpl; rewrite length_app; lia).
  f_equal. exact (take_app_length (c :: kw) rest).
Qed.

(** None of the excluded call names starts with [static]. *)
Lemma excluded_not_static kw (k : groups → text → option (groups * text))
    rest :
  kw ∈ excluded →
  run (Seq (lit "static") (plus is_space)) [] (txt kw ++ rest) k = None.
Proof.
  intros Hin. unfold excluded in Hin.
  repeat (apply elem_of_cons in Hin as [->|Hin]; [reflexivity|]).
  by apply elem_of_nil in Hin.
Qed.

Lemma excluded_words kw :
  kw ∈ excluded → txt kw ≠ [] ∧ forallb is_word (txt kw) = true.
Proof.
  intros Hin. unfold excluded in Hin.
  repeat (apply elem_of_cons in Hin as [->|Hin]; [by vm_compute|]).
  by apply elem_of_nil in Hin.
Qed.

Lemma str_txt s : str (txt s) = s.
Proof. apply string_of_list_ascii_of_string. Qed.

(** A header that no earlier match of the method pattern runs over
    makes its keyword a definition. *)
Lemma header_defines content pre kw ws1 args ws2 post :
  kw ∈ excluded →
  forallb is_space ws1 = true →
  forallb (none_of ")") args = true →
  forallb is_space ws2 = true →
  content = pre ++ header kw ws1 args ws2 ++ post →
  (∀ m, m ∈ finditer pattern2 content →
        m_start m < length pre → m_end m ≤ length pre) →
  kw ∈ extract_function_definitions content.
Proof.
  intros Hkw Hws1 Hargs Hws2 -> Hno.
  destruct (excluded_words kw Hkw) as [Hne Hw].
  unfold extract_function_definitions.
  assert (Hin : kw ∈ names (findall pattern2
                 (pre ++ header kw ws1 args ws2 ++ post))).
  { unfold names. apply elem_of_list_to_set, list_elem_of_fmap.
    exists (txt kw). split; [by rewrite str_txt|].
    change (txt kw) with (group 1 [(1, txt kw)]).
    apply findall_reaches with (rest := post); [|done].
    unfold header. rewrite <- !app_assoc.
    apply pattern2_at_header; try done.
    intros k rest. by apply excluded_not_static. }
  set_solver.
Qed.

End header_facts.

Module analyzer_claims.
Import function_analyzer dict_facts analyzer_facts.

(** C1, as amended: a called name [n] is reported undefined exactly when
    [n] is not in [D], [n] is not in the builtin allowlist, and no name
    in [D] is a prefix of [n]. *)
Theorem undefined_iff_no_definition_is_prefix rt files n :
  n ∈ keys (undefined_functions (main rt files).1) ↔
  n ∈ keys (all_calls (first_pass files))
  ∧ (n ∉ all_definitions (first_pass files))
  ∧ (n ∉ gas_builtins)
  ∧ ¬ ∃ c, c ∈ all_definitions (first_pass files) ∧ startswith n c = true.
Proof.
  simpl. unfold find_undefined_functions.
  rewrite (elem_of_keys_filter
             (function_undefined rt (all_definitions (first_pass files)))).
  by rewrite function_undefined_true.
Qed.

(** C1, as worded, fails: with the only definition [FooBar], the called
    name [Foo] is a prefix of a name in [D], yet it is reported. *)
Lemma undefined_as_worded_fails :
  let files := [("a.gs", txt "function FooBar() { Foo(); }")] in
  "Foo" ∈ keys (all_calls (first_pass files))
  ∧ ¬ ("Foo" ∈ keys (undefined_functions (main rt_forward files).1) ↔
       undefined_as_worded (all_definitions (first_pass files)) "Foo").
Proof.
  intros files. split.
  - by_computation.
  - intros [Hrep _].
    destruct Hrep as (_ & _ & Hno).
    + by_computation.
    + apply Hno. exists "FooBar". split; [|done].
      by_computation.
Qed.

(** The value [main] returns is the number of undefined functions plus
    the number of undefined classes, each name counted once, and is zero
    exactly when there is no finding.  (What the process exits with is
    another matter: see [process_claims].) *)
Lemma main_returns_number_of_findings rt files :
  (main rt files).2
  = length (keys (undefined_functions (main rt files).1))
    + length (keys (undefined_classes (main rt files).1))
  ∧ NoDup (keys (undefined_functions (main rt files).1))
  ∧ NoDup (keys (undefined_classes (main rt files).1))
  ∧ ((main rt files).2 = 0 ↔
     undefined_functions (main rt files).1 = []
     ∧ undefined_classes (main rt files).1 = []).
Proof.
  destruct (first_pass_keys_distinct files) as [Hc Hr].
  simpl. unfold keys. rewrite !length_map.
  split; [done|]. split; [by apply NoDup_keys_filter|].
  split; [by apply NoDup_keys_filter|].
  split; [intros Hz; split|intros [H H0]].
  - apply length_zero_iff_nil. lia.
  - apply length_zero_iff_nil. lia.
  - by rewrite H, H0.
Qed.

(** C3: when [D] contains a name [c] and the called name [n] starts with
    [c], [n] is not among the undefined functions; one such [c] is
    enough. *)
Theorem prefix_of_definition_suppresses rt files c n :
  c ∈ all_definitions (first_pass files) →
  startswith n c = true →
  n ∉ keys (undefined_functions (main rt files).1).
Proof. apply prefix_suppresses. Qed.

(** The property at work: [Foo] is defined, [FooBar] is called and is
    not reported. *)
Lemma prefix_of_definition_suppresses_witness :
  let files := [("a.gs", txt "function Foo() { FooBar(); }")] in
  "Foo" ∈ all_definitions (first_pass files)
  ∧ startswith "FooBar" "Foo" = true
  ∧ "FooBar" ∈ keys (all_calls (first_pass files))
  ∧ ("FooBar" ∉ keys (undefined_functions (main rt_forward files).1)).
Proof.
  intros files.
  assert (Hc : "Foo" ∈ all_definitions (first_pass files)).
  { by_computation. }
  assert (Hp : startswith "FooBar" "Foo" = true) by reflexivity.
  split; [exact Hc|]. split; [exact Hp|]. split.
  - by_computation.
  - exact (prefix_of_definition_suppresses rt_forward files "Foo" "FooBar"
             Hc Hp).
Defined.

(** C6, as amended: two runs over the same files, whatever order the
    interpreter enumerates sets in, write the same summary and the same
    finding maps and return the same exit code; the [all_definitions]
    arrays hold the same names, possibly in a different order. *)
Theorem runs_agree_up_to_definition_order rt1 rt2 files :
  rep_summary (main rt1 files).1 = rep_summary (main rt2 files).1
  ∧ undefined_functions (main rt1 files).1
    = undefined_functions (main rt2 files).1
  ∧ undefined_classes (main rt1 files).1
    = undefined_classes (main rt2 files).1
  ∧ rep_all_definitions (main rt1 files).1
    ≡ₚ rep_all_definitions (main rt2 files).1
  ∧ (main rt1 files).2 = (main rt2 files).2.
Proof.
  assert (Hf : ∀ D calls,
    find_undefined_functions rt1 D calls
    = find_undefined_functions rt2 D calls).
  { intros D calls. unfold find_undefined_functions.
    apply filter_ext. intros [n locs]. unfold function_undefined.
    by rewrite (is_method_order rt1 rt2). }
  simpl. rewrite !Hf. repeat split.
  by rewrite !set_iter_perm.
Qed.

(** C6, as worded, fails: for a file that defines [a] and [b], a run
    that enumerates the set of definitions forwards and one that
    enumerates it backwards write different [all_definitions] arrays. *)
Lemma reports_differ_in_definition_order :
  let files := [("a.gs", txt "function a() {} function b() {}")] in
  ¬ same_document (main rt_forward files).1 (main rt_backward files).1.
Proof.
  intros files (_ & _ & _ & Heq).
  vm_compute in Heq. discriminate Heq.
Qed.

(** C4, at the failing input: the whole file is one block comment, and
    the call inside it is extracted. *)
Lemma call_in_block_comment_is_extracted :
  let content := txt "/* bar(); // */" in
  js_code InCode content = []
  ∧ strip_comments content = txt "/* bar(); "
  ∧ calls (analyze_file content) = [mkCall "bar" 1].
Proof. by vm_compute. Qed.

(** C5, at the failing input: [foo(] occurs once in the file, on line
    3, and is recorded on line 2. *)
Lemma line_counted_in_stripped_text :
  let content :=
    txt "/* a" ++ [nl] ++ txt " b */" ++ [nl] ++ txt "foo();" in
  map (file_line content) (offsets_of (txt "foo(") 0 content) = [3]
  ∧ calls (analyze_file content) = [mkCall "foo" 2].
Proof. by vm_compute. Qed.

End analyzer_claims.

Module header_claims.
Import Chr Re function_analyzer Re_facts analyzer_facts header_facts.

(** C10, as amended: when the comment-stripped text of an ASCII file
    contains a header [kw (...) {] for an excluded call name [kw] (a
    keyword such as [if], [for], [while], [switch] or [catch]) and no
    earlier match of the method pattern runs over the keyword, [kw] is
    among the definitions extracted from the file, and in every run that
    scans the file no called name that starts with [kw] is reported
    undefined. *)
Theorem keyword_header_is_definition content pre kw ws1 args ws2 post :
  Charset.ascii_text content →
  kw ∈ excluded →
  forallb is_space ws1 = true →
  forallb (none_of ")") args = true →
  forallb is_space ws2 = true →
  strip_comments content = pre ++ header kw ws1 args ws2 ++ post →
  (∀ m, m ∈ finditer pattern2 (strip_comments content) →
        m_start m < length pre → m_end m ≤ length pre) →
  kw ∈ definitions (analyze_file content)
  ∧ ∀ rt files filepath n,
      (filepath, content) ∈ files →
      startswith n kw = true →
      n ∉ keys (undefined_functions (main rt files).1).
Proof.
  intros _ Hkw Hws1 Hargs Hws2 Hshape Hno.
  assert (Hdef : kw ∈ definitions (analyze_file content)).
  { change (kw ∈ extract_function_definitions (strip_comments content)).
    by apply (header_defines _ pre kw ws1 args ws2 post). }
  split; [done|]. intros rt files filepath n Hfile Hstart.
  apply prefix_suppresses with (c := kw); [|done].
  by apply (first_pass_definitions files filepath content Hfile).
Qed.

(** The property at work: the [if] header follows the match of [f], and
    the call of [ifReady] is not reported. *)
Lemma keyword_header_is_definition_witness :
  let content := txt "function f() { if (x) { ifReady(); } }" in
  let pre := txt "function f() { " in
  Charset.ascii_text content
  ∧ "if" ∈ excluded
  ∧ strip_comments content
    = pre ++ header "if" (txt " ") (txt "x") (txt " ")
      ++ txt " ifReady(); } }"
  ∧ (∀ m, m ∈ finditer pattern2 (strip_comments content) →
          m_start m < length pre → m_end m ≤ length pre)
  ∧ "if" ∈ definitions (analyze_file content)
  ∧ "ifReady" ∈ keys (all_calls (first_pass [("a.gs", content)]))
  ∧ ("ifReady"
     ∉ keys (undefined_functions (main rt_forward [("a.gs", content)]).1)).
Proof.
  intros content pre.
  assert (Hascii : Charset.ascii_text content) by reflexivity.
  assert (Hkw : "if" ∈ excluded) by by_computation.
  assert (Hshape : strip_comments content
                   = pre ++ header "if" (txt " ") (txt "x") (txt " ")
                     ++ txt " ifReady(); } }") by (by vm_compute).
  assert (Hno : ∀ m, m ∈ finditer pattern2 (strip_comments content) →
                     m_start m < length pre → m_end m ≤ length pre).
  { apply (proj1 (Forall_forall
             (λ m, m_start m < length pre → m_end m ≤ length pre) _)).
    by_computation. }
  destruct (keyword_header_is_definition content pre "if" (txt " ")
              (txt "x") (txt " ") (txt " ifReady(); } }")
              Hascii Hkw eq_refl eq_refl eq_refl Hshape Hno)
    as [Hdef Hsup].
  split; [exact Hascii|]. split; [exact Hkw|]. split; [exact Hshape|]. split; [exact Hno|].
  split; [exact Hdef|]. split; [by_computation|].
  apply (Hsup rt_forward [("a.gs", content)] "a.gs" "ifReady").
  - apply elem_of_cons. by left.
  - reflexivity.
Defined.

(** C10, as worded, fails: the header [if (x) {] below lies inside the
    match of the method pattern that starts at [forEach], and [if] is
    not among the definitions. *)
Lemma keyword_header_inside_earlier_match :
  let content := txt "a.forEach(x => { if (x) { } })" in
  strip_comments content
  = txt "a.forEach(x => { " ++ header "if" (txt " ") (txt "x") (txt " ")
    ++ txt " } })"
  ∧ "if" ∈ excluded
  ∧ ("if" ∉ definitions (analyze_file content)).
Proof.
  intros content. split; [by vm_compute|]. split; by_computation.
Qed.

End header_claims.

(* ================================================================== *)
(** ** The URL tester *)
(* ================================================================== *)

Module url_facts.
Import url_test.

(** The message of a failed probe, by the handler that catches [x]. *)
Lemma handle_fails x :
  handle x = Ok ("fail",
                 if is_timeout x then "Timeout"
                 else if is_connection_error x then "Connection error"
                 else exn_str x).
Proof. unfold handle. by destruct (is_timeout x), (is_connection_error x). Qed.

(** [test_url] returns in every case, with one of the three statuses. *)
Lemma test_url_returns e url :
  ∃ status message,
    test_url e url = Ok (status, message)
    ∧ status ∈ ["success"; "fail"; "skip"].
Proof.
  unfold test_url, probe, mbind, result_bind.
  destruct (urlparse_hostname e url) as [h|x].
  - destruct (hostname_skipped h).
    + eexists _, _. split; [done|]. set_solver.
    + destruct (requests_head e (api_url url)) as [c|x].
      * destruct (c <? 400)%Z; eexists _, _; (split; [done|]); set_solver.
      * rewrite handle_fails. eexists _, _. split; [done|]. set_solver.
  - rewrite handle_fails. eexists _, _. split; [done|]. set_solver.
Qed.

Lemma test_url_entry e url files :
  ∃ status message,
    test_url e url = Ok (status, message)
    ∧ status ∈ ["success"; "fail"; "skip"]
    ∧ entry_of e (url, files) = mkEntry url files status message.
Proof.
  destruct (test_url_returns e url) as (st & msg & Heq & Hin).
  exists st, msg. split; [done|]. split; [done|].
  unfold entry_of. simpl. by rewrite Heq.
Qed.

(** *** Dictionaries *)

Lemma dict_find_append {V} k (v : V) (d : dict V) u :
  dict_find u (dict_append k v d)
  = if String.eqb u k then dict_find k d ++ [v] else dict_find u d.
Proof.
  induction d as [|[k' vs] d IH]; simpl.
  - by destruct (String.eqb_spec u k).
  - destruct (String.eqb_spec k k') as [->|Hne]; simpl.
    + by destruct (String.eqb_spec u k').
    + rewrite IH. destruct (String.eqb_spec u k') as [Heq|Hne']; [|done].
      subst u. by destruct (String.eqb_spec k' k) as [Heq|_].
Qed.

Lemma elem_of_dict_find {V} (d : dict V) u vs :
  NoDup (keys d) → (u, vs) ∈ d → dict_find u d = vs.
Proof.
  induction d as [|[k' vs'] d IH]; simpl; intros Hnd Hin.
  - by apply elem_of_nil in Hin.
  - apply NoDup_cons in Hnd as [Hk Hnd].
    apply elem_of_cons in Hin as [[= -> ->]|Hin].
    + by rewrite String.eqb_refl.
    + destruct (String.eqb_spec u k') as [->|_]; [|by apply IH].
      exfalso. apply Hk. apply list_elem_of_fmap. by exists (k', vs).
Qed.

(** The list [unique] keeps for a URL is the list of the files of its
    occurrences. *)
Lemma dict_find_unique all_urls u :
  dict_find u (unique all_urls) = found_in all_urls u.
Proof.
  unfold unique.
  assert (H : ∀ d : dict string,
    dict_find u (fold_left (λ d uf, dict_append uf.1 uf.2 d) all_urls d)
    = dict_find u d ++ found_in all_urls u).
  { induction all_urls as [|[u' f] l IH]; intros d; simpl.
    - by rewrite app_nil_r.
    - rewrite IH, dict_find_append. unfold found_in. simpl.
      rewrite (String.eqb_sym u' u).
      destruct (String.eqb_spec u u') as [->|_]; simpl; [|done].
      by rewrite <- app_assoc. }
  by rewrite H.
Qed.

Lemma keys_unique all_urls :
  NoDup (keys (unique all_urls))
  ∧ ∀ u, u ∈ keys (unique all_urls) ↔ u ∈ all_urls.*1.
Proof.
  unfold unique. split.
  - apply (dict_facts.NoDup_keys_fold fst snd). apply NoDup_nil_2.
  - assert (H : ∀ (d : dict string) u,
      u ∈ keys (fold_left (λ d uf, dict_append uf.1 uf.2 d) all_urls d)
      ↔ u ∈ keys d ∨ u ∈ all_urls.*1).
    { induction all_urls as [|[u' f] l IH]; intros d u; simpl.
      - rewrite elem_of_nil. naive_solver.
      - rewrite IH, dict_facts.elem_of_keys_dict_append, elem_of_cons.
        naive_solver. }
    intros u. rewrite H. simpl. rewrite elem_of_nil. naive_solver.
Qed.

Lemma filter_key_unique {V} (d : dict V) u :
  NoDup (keys d) → u ∈ keys d →
  List.filter (λ it, String.eqb it.1 u) d = [(u, dict_find u d)].
Proof.
  induction d as [|[k vs] d IH]; simpl; intros Hnd Hin.
  - by apply elem_of_nil in Hin.
  - apply NoDup_cons in Hnd as [Hk Hnd].
    rewrite (String.eqb_sym u k).
    destruct (String.eqb_spec k u) as [->|Hne].
    + f_equal. clear IH Hin Hnd.
      induction d as [|[k' vs'] d IH]; simpl; [done|].
      simpl in Hk. apply not_elem_of_cons in Hk as [Hne Hk].
      destruct (String.eqb_spec k' u) as [->|_]; [done|]. by apply IH.
    + apply elem_of_cons in Hin as [->|Hin]; [done|]. by apply IH.
Qed.

Lemma filter_Permutation {A} (f : A → bool) (l1 l2 : list A) :
  l1 ≡ₚ l2 → List.filter f l1 ≡ₚ List.filter f l2.
Proof.
  induction 1 as [|x l1 l2 _ IH|x y l|l1 l2 l3 _ IH1 _ IH2]; simpl.
  - done.
  - destruct (f x); by rewrite IH.
  - destruct (f x), (f y); try done. apply perm_swap.
  - by etrans.
Qed.

Lemma elem_of_found_in all_urls u f :
  f ∈ found_in all_urls u ↔ (u, f) ∈ all_urls.
Proof.
  unfold found_in. induction all_urls as [|[u' f'] l IH]; simpl.
  - by rewrite !elem_of_nil.
  - destruct (String.eqb_spec u' u) as [->|Hne]; simpl;
      rewrite ?elem_of_cons, IH; naive_solver.
Qed.

(** *** The result lists *)

Lemma dict_get_ok {V} k (d : dict V) :
  k ∈ keys d → ∃ vs, dict_get k d = Ok vs.
Proof.
  induction d as [|[k' vs] d IH]; simpl; intros Hin.
  - by apply elem_of_nil in Hin.
  - destruct (String.eqb_spec k k') as [->|Hne]; [by eexists|].
    apply elem_of_cons in Hin as [->|Hin]; [done|]. by apply IH.
Qed.

(** Filing an entry under an existing status succeeds, keeps the keys
    and adds just this entry. *)
Lemma dict_get_append_ok {V} k (v : V) (d : dict V) :
  k ∈ keys d →
  ∃ d', dict_get_append k v d = Ok d'
        ∧ keys d' = keys d
        ∧ flat_map snd d' ≡ₚ v :: flat_map snd d.
Proof.
  induction d as [|[k' vs] d IH]; simpl; intros Hin.
  - by apply elem_of_nil in Hin.
  - destruct (String.eqb_spec k k') as [->|Hne].
    + eexists. split; [done|]. split; [done|]. simpl.
      rewrite <- app_assoc. simpl. by rewrite <- Permutation_middle.
    + apply elem_of_cons in Hin as [->|Hin]; [done|].
      destruct (IH Hin) as (d' & -> & Hk & Hp).
      eexists. split; [done|]. simpl. split; [by rewrite Hk|].
      rewrite Hp. by rewrite <- Permutation_middle.
Qed.

Lemma test_each_ok e items : ∀ results,
  keys results = ["success"; "fail"; "skip"] →
  ∃ results',
    test_each e items results = Ok results'
    ∧ keys results' = keys results
    ∧ all_entries results'
      ≡ₚ all_entries results ++ map (entry_of e) items.
Proof.
  induction items as [|[url files] items IH]; simpl; intros results Hk.
  - eexists. split; [done|]. split; [done|]. by rewrite app_nil_r.
  - destruct (test_url_entry e url files) as (st & msg & -> & Hin & ->).
    simpl.
    destruct (dict_get_append_ok st (mkEntry url files st msg) results)
      as (r1 & -> & Hk1 & Hp1); [by rewrite Hk|].
    simpl. destruct (IH r1) as (r2 & -> & Hk2 & Hp2); [congruence|].
    eexists. split; [done|]. split; [congruence|].
    rewrite Hp2. unfold all_entries. rewrite Hp1.
    by rewrite <- Permutation_middle.
Qed.

Lemma entry_of_fields e item :
  e_url (entry_of e item) = item.1 ∧ e_files (entry_of e item) = item.2.
Proof. unfold entry_of. by destruct (test_url e item.1). Qed.

Lemma entries_for_map e url items :
  entries_for url (map (entry_of e) items)
  = map (entry_of e) (List.filter (λ it, String.eqb it.1 url) items).
Proof.
  unfold entries_for. induction items as [|it items IH]; simpl; [done|].
  destruct (entry_of_fields e it) as [-> _].
  destruct (String.eqb it.1 url); simpl; by rewrite IH.
Qed.

End url_facts.

Module url_claims.
Import url_test url_facts.

(** C9, as amended: [main] returns, each URL found appears exactly once
    across the three result lists, and its [files] array lists the file
    of every occurrence of the URL, in order of occurrence: a file is
    in the array exactly when the URL was found in it, and is repeated
    when the URL occurs in it more than once. *)
Theorem each_url_reported_once e files :
  ∃ results code,
    main e files = Ok (results, code)
    ∧ keys results = ["success"; "fail"; "skip"]
    ∧ ∀ url, url ∈ (collect_urls files).*1 →
        ∃ en, entries_for url (all_entries results) = [en]
              ∧ e_url en = url
              ∧ e_files en = found_in (collect_urls files) url
              ∧ ∀ f, f ∈ e_files en ↔ (url, f) ∈ collect_urls files.
Proof.
  unfold main.
  destruct (test_each_ok e (unique (collect_urls files)) empty_results)
    as (results & -> & Hk & Hp); [done|].
  simpl. destruct (dict_get_ok "fail" results) as [failed ->].
  { rewrite Hk. set_solver. }
  simpl. exists results, (length failed). split; [done|].
  split; [done|]. intros url Hin.
  destruct (keys_unique (collect_urls files)) as [Hnd Hkeys].
  apply Hkeys in Hin.
  exists (entry_of e (url, found_in (collect_urls files) url)).
  destruct (entry_of_fields e (url, found_in (collect_urls files) url))
    as [Hu Hf].
  split; [|split; [done|split; [done|]]].
  - assert (Hp' : all_entries results
                  ≡ₚ map (entry_of e) (unique (collect_urls files)))
      by exact Hp.
    apply Permutation_singleton_r.
    unfold entries_for at 1. rewrite (filter_Permutation _ _ _ Hp').
    fold (entries_for url (map (entry_of e) (unique (collect_urls files)))).
    rewrite entries_for_map, filter_key_unique by done.
    by rewrite dict_find_unique.
  - intros f. rewrite Hf. apply elem_of_found_in.
Qed.

(** C9, as worded, fails: a URL that occurs twice in one file is
    reported with that file twice in its [files] array. *)
Lemma files_array_repeats_file :
  let files := [("a.md", Some (txt "http://x.org http://x.org"))] in
  ∃ results code en,
    main env_404 files = Ok (results, code)
    ∧ "http://x.org" ∈ (collect_urls files).*1
    ∧ en ∈ all_entries results
    ∧ e_url en = "http://x.org"
    ∧ e_files en = ["a.md"; "a.md"]
    ∧ ¬ NoDup (e_files en).
Proof.
  intros files. eexists _, _, _. split; [by vm_compute|].
  split; [by_computation|]. split; [apply elem_of_cons; by left|].
  split; [done|]. split; [done|].
  simpl. intros Hnd. apply NoDup_cons in Hnd as [Hn _].
  apply Hn, elem_of_cons. by left.
Qed.

(** C7: for every URL and every behaviour of the URL library and the
    network, [test_url] returns a pair (no exception leaves it) whose
    status is [skip], [success] or [fail]: [skip] when the hostname is
    one of the local or example hosts; [success] when the request
    answers with a status below 400; [fail] when parsing or the request
    raises (a timeout, a connection error or any other exception) and
    when the status is 400 or more. *)
Theorem test_url_never_raises e url :
  ∃ status message,
    test_url e url = Ok (status, message)
    ∧ ((status = "skip"
        ∧ ∃ h, urlparse_hostname e url = Ok h
               ∧ hostname_skipped h = true)
       ∨ (status = "success"
          ∧ ∃ h c, urlparse_hostname e url = Ok h
                   ∧ hostname_skipped h = false
                   ∧ requests_head e (api_url url) = Ok c
                   ∧ (c < 400)%Z)
       ∨ (status = "fail"
          ∧ ((∃ h c, urlparse_hostname e url = Ok h
                     ∧ hostname_skipped h = false
                     ∧ requests_head e (api_url url) = Ok c
                     ∧ (400 ≤ c)%Z)
             ∨ ∃ x, (urlparse_hostname e url = Raise x
                     ∨ ∃ h, urlparse_hostname e url = Ok h
                            ∧ hostname_skipped h = false
                            ∧ requests_head e (api_url url) = Raise x)
                    ∧ message
                      = if is_timeout x then "Timeout"
                        else if is_connection_error x
                             then "Connection error"
                             else exn_str x))).
Proof.
  unfold test_url, probe, mbind, result_bind.
  destruct (urlparse_hostname e url) as [h|x].
  - destruct (hostname_skipped h) eqn:Hs.
    + eexists _, _. split; [done|]. left. split; [done|]. by exists h.
    + destruct (requests_head e (api_url url)) as [c|x].
      * destruct (Z.ltb_spec c 400); eexists _, _; (split; [done|]).
        -- right; left. split; [done|]. by exists h, c.
        -- right; right. split; [done|]. left. by exists h, c.
      * rewrite handle_fails. eexists _, _. split; [done|].
        right; right. split; [done|]. right. exists x. split; [|done].
        right. by exists h.
  - rewrite handle_fails. eexists _, _. split; [done|].
    right; right. split; [done|]. right. exists x. split; [|done].
    by left.
Qed.

(** C8: when the hostname is not skipped and the request answers with
    status code [c], the result is [success] for [c] below 400 and
    [fail] for [c] of 400 or more, and in both cases the message is
    [Status: ] followed by the decimal digits of [c]. *)
Theorem response_classified_by_status e url h c :
  urlparse_hostname e url = Ok h →
  hostname_skipped h = false →
  requests_head e (api_url url) = Ok c →
  ((c < 400)%Z →
   test_url e url = Ok ("success", "Status: " +:+ format_int c))
  ∧ ((400 ≤ c)%Z →
     test_url e url = Ok ("fail", "Status: " +:+ format_int c)).
Proof.
  intros Hh Hs Hc. unfold test_url, probe, mbind, result_bind.
  rewrite Hh, Hs, Hc.
  split; intros Hlt; destruct (Z.ltb_spec c 400); done || lia.
Qed.

(** The property at work: a 404 answer. *)
Lemma response_classified_by_status_witness :
  urlparse_hostname env_404 "http://x.org/missing" = Ok (Some "x.org")
  ∧ hostname_skipped (Some "x.org") = false
  ∧ requests_head env_404 (api_url "http://x.org/missing") = Ok 404%Z
  ∧ (400 ≤ 404)%Z
  ∧ test_url env_404 "http://x.org/missing" = Ok ("fail", "Status: 404").
Proof.
  assert (Hh : urlparse_hostname env_404 "http://x.org/missing"
               = Ok (Some "x.org")) by reflexivity.
  assert (Hs : hostname_skipped (Some "x.org") = false) by reflexivity.
  assert (Hc : requests_head env_404 (api_url "http://x.org/missing")
               = Ok 404%Z) by reflexivity.
  assert (Hge : (400 ≤ 404)%Z) by (by vm_compute).
  split; [exact Hh|]. split; [exact Hs|]. split; [exact Hc|].
  split; [exact Hge|].
  exact (proj2 (response_classified_by_status env_404
                  "http://x.org/missing" (Some "x.org") 404%Z Hh Hs Hc)
               Hge).
Defined.

End url_claims.

(* ================================================================== *)
(** ** The matcher and the language of a pattern *)
(* ================================================================== *)

Module Lang_facts.
Import Chr Re Lang.

Section Sound.
Context {R : Type}.

Lemma star_sound greedy p s (k : text → option R) x :
  star greedy p s k = Some x →
  ∃ w s', s = w ++ s' ∧ forallb p w = true ∧ k s' = Some x.
Proof.
  induction s as [|c s IH]; simpl; intros H.
  - by exists [], [].
  - destruct (p c) eqn:Hc; [|by exists [], (c :: s)].
    destruct greedy.
    + destruct (star true p s k) as [y|] eqn:Hs.
      * destruct (IH H) as (w & s' & -> & Hw & Hk).
        exists (c :: w), s'. simpl. by rewrite Hc, Hw.
      * by exists [], (c :: s).
    + destruct (k (c :: s)) as [y|] eqn:Hs.
      * exists [], (c :: s). split; [done|]. split; [done|]. congruence.
      * destruct (IH H) as (w & s' & -> & Hw & Hk).
        exists (c :: w), s'. simpl. by rewrite Hc, Hw.
Qed.

(** A successful run consumes a text of the pattern's language and hands
    the rest to the continuation; a pattern without groups leaves the
    groups as they are. *)
Lemma run_sound r : ∀ g s (k : groups → text → option R) x,
  run r g s k = Some x →
  ∃ g' w s', s = w ++ s' ∧ lang r w ∧ k g' s' = Some x
             ∧ (no_groups r = true → g' = g).
Proof.
  induction r as [c|p| | |r1 IH1 r2 IH2|r1 IH1 r2 IH2|gr p|i r IH];
    simpl; intros g s k x H.
  - destruct s as [|c' s]; [done|].
    destruct (Ascii.eqb_spec c c') as [->|]; [|done].
    by exists g, [c'], s.
  - destruct s as [|c' s]; [done|]. destruct (p c') eqn:Hp; [|done].
    exists g, [c'], s. naive_solver.
  - by exists g, [], s.
  - exists g, [], s. by destruct s as [|c' s]; [|destruct (Ascii.eqb c' nl)].
  - destruct (IH1 _ _ _ _ H) as (g1 & w1 & s1 & -> & L1 & H1 & G1).
    destruct (IH2 _ _ _ _ H1) as (g2 & w2 & s2 & -> & L2 & H2 & G2).
    exists g2, (w1 ++ w2), s2. rewrite app_assoc.
    split; [done|]. split; [by exists w1, w2|]. split; [done|].
    intros [N1 N2]%andb_true_iff. by rewrite G2, G1.
  - destruct (run r1 g s k) as [y|] eqn:H1.
    + destruct (IH1 _ _ _ _ H1) as (g1 & w1 & s1 & -> & L1 & K1 & G1).
      exists g1, w1, s1. split; [done|]. split; [by left|].
      split; [congruence|]. intros [N1 N2]%andb_true_iff. by apply G1.
    + destruct (IH2 _ _ _ _ H) as (g1 & w1 & s1 & -> & L1 & K1 & G1).
      exists g1, w1, s1. split; [done|]. split; [by right|].
      split; [done|]. intros [N1 N2]%andb_true_iff. by apply G1.
  - destruct (star_sound _ _ _ _ _ H) as (w & s' & -> & Hw & Hk).
    by exists g, w, s'.
  - destruct (IH _ _ _ _ H) as (g1 & w1 & s1 & -> & L1 & K1 & G1).
    eexists _, w1, s1. split; [done|]. split; [done|]. split; [exact K1|].
    done.
Qed.

(** A group over a pattern without inner groups records exactly the text
    its pattern consumed. *)
Lemma run_group i r g s (k : groups → text → option R) x :
  no_groups r = true →
  run (Grp i r) g s k = Some x →
  ∃ w s', s = w ++ s' ∧ lang r w ∧ k ((i, w) :: g) s' = Some x.
Proof.
  simpl. intros N H.
  destruct (run_sound _ _ _ _ _ H) as (g1 & w1 & s1 & -> & L1 & K1 & G1).
  rewrite (G1 N) in K1. exists w1, s1. split; [done|]. split; [done|].
  rewrite length_app in K1.
  replace (length w1 + length s1 - length s1) with (length w1) in K1 by lia.
  by rewrite take_app_length in K1.
Qed.

End Sound.

Lemma match_at_sound r s g rest :
  match_at r s = Some (g, rest) → ∃ w, s = w ++ rest ∧ lang r w.
Proof.
  intros H. destruct (run_sound _ _ _ _ _ H) as (g1 & w & s1 & -> & L & K & _).
  exists w. by inversion K.
Qed.

(** Every match the scan reports is a match of the pattern at its start
    offset: the text from there on begins with a text of the pattern's
    language of the length of the match, and the groups are those of the
    matcher. *)
Lemma scan_sound r : ∀ s pos skip m,
  m ∈ scan r pos skip s →
  ∃ w rest, lang r w
            ∧ pos ≤ m_start m
            ∧ drop (m_start m - pos) s = w ++ rest
            ∧ m_end m = m_start m + length w
            ∧ match_at r (w ++ rest) = Some (m_groups m, rest).
Proof.
  induction s as [|c s IH]; simpl; intros pos skip m Hin.
  - destruct skip; [|by apply elem_of_nil in Hin].
    destruct (match_at r []) as [[g rest]|] eqn:Hm;
      [|by apply elem_of_nil in Hin].
    apply list_elem_of_singleton in Hin as ->.
    destruct (match_at_sound _ _ _ _ Hm) as (w & Heq & L).
    symmetry in Heq. apply app_eq_nil in Heq as [-> ->].
    exists [], []. simpl. rewrite Nat.add_0_r. by destruct (pos - pos).
  - assert (Htail : ∀ n, m ∈ scan r (S pos) n s →
      ∃ w rest, lang r w ∧ pos ≤ m_start m
                ∧ drop (m_start m - pos) (c :: s) = w ++ rest
                ∧ m_end m = m_start m + length w
                ∧ match_at r (w ++ rest) = Some (m_groups m, rest)).
    { intros n Hn. destruct (IH _ _ _ Hn) as (w & rest & L & Hp & Hd & He & Hm).
      exists w, rest. split; [done|]. split; [lia|]. split; [|done].
      replace (m_start m - pos) with (S (m_start m - S pos)) by lia.
      done. }
    destruct skip as [|n]; [|by eapply Htail].
    destruct (match_at r (c :: s)) as [[g rest]|] eqn:Hm; [|by eapply Htail].
    apply elem_of_cons in Hin as [->|Hin]; [|by eapply Htail].
    destruct (match_at_sound _ _ _ _ Hm) as (w & Heq & L).
    exists w, rest. simpl. rewrite Nat.sub_diag. simpl.
    split; [done|]. split; [done|]. split; [done|].
    split; [|by rewrite <- Heq].
    f_equal. change (length (c :: s) - length rest = length w).
    rewrite Heq, length_app. lia.
Qed.

Lemma finditer_sound r s m :
  m ∈ finditer r s →
  ∃ w rest, lang r w ∧ drop (m_start m) s = w ++ rest
            ∧ m_end m = m_start m + length w
            ∧ match_at r (w ++ rest) = Some (m_groups m, rest).
Proof.
  intros Hin. destruct (scan_sound _ _ _ _ _ Hin) as (w & rest & L & _ & Hd & He & Hm).
  rewrite Nat.sub_0_r in Hd. by exists w, rest.
Qed.

(** What [findall0] returns are texts of the pattern's language. *)
Lemma findall0_sound r s w : w ∈ findall0 r s → lang r w.
Proof.
  unfold findall0. intros (m & -> & Hin)%list_elem_of_fmap.
  destruct (finditer_sound _ _ _ Hin) as (w & rest & L & Hd & He & _).
  rewrite Hd, He. replace (m_start m + length w - m_start m) with (length w) by lia.
  by rewrite take_app_length.
Qed.

Lemma lang_plus p w :
  lang (plus p) w → w ≠ [] ∧ forallb p w = true.
Proof.
  simpl. intros (w1 & w2 & -> & (c & -> & Hc) & Hw). simpl.
  by rewrite Hc, Hw.
Qed.

(** Stepping through a sequence whose head has no group. *)
Lemma run_seq_free {R} a b g s (k : groups → text → option R) x :
  no_groups a = true →
  run (Seq a b) g s k = Some x → ∃ s', run b g s' k = Some x.
Proof.
  simpl. intros N H.
  destruct (run_sound _ _ _ _ _ H) as (g1 & w & s1 & _ & _ & K & G).
  rewrite (G N) in K. by exists s1.
Qed.

(** Stepping through a sequence whose head is a group. *)
Lemma run_seq_group {R} i r b g s (k : groups → text → option R) x :
  no_groups r = true →
  run (Seq (Grp i r) b) g s k = Some x →
  ∃ w s', lang r w ∧ run b ((i, w) :: g) s' k = Some x.
Proof.
  intros N H. change (run (Grp i r) g s (λ g' s', run b g' s' k) = Some x) in H.
  destruct (run_group _ _ _ _ _ _ N H) as (w & s' & _ & L & K).
  by exists w, s'.
Qed.

Lemma run_free_final r g s g' rest :
  no_groups r = true →
  run r g s (λ g s', Some (g, s')) = Some (g', rest) → g' = g.
Proof.
  intros N H.
  destruct (run_sound _ _ _ _ _ H) as (g1 & w & s1 & _ & _ & K & G).
  rewrite (G N) in K. by inversion K.
Qed.

End Lang_facts.

(* ================================================================== *)
(** ** Further properties of the extraction *)
(* ================================================================== *)

Module extraction_facts.
Import Chr Re Lang Lang_facts function_analyzer.

(** Steps through a pattern given as a sequence: heads without groups are
    passed, a group is opened into the text it recorded. *)
Ltac step_pattern H :=
  repeat first
    [ apply run_seq_group in H as (? & ? & ?%lang_plus & H); [|reflexivity]
    | apply run_seq_free in H as (? & H); [|reflexivity] ].

Lemma str_nonempty w : w ≠ [] → str w ≠ "".
Proof. by destruct w. Qed.

(** The patterns with one group record an identifier as group 1. *)
Lemma pattern1_group s g rest :
  match_at pattern1 s = Some (g, rest) → identifier (group 1 g).
Proof.
  unfold match_at, pattern1. cbn [seqs]. intros H. step_pattern H.
  by apply run_free_final in H as ->.
Qed.

Lemma pattern2_group s g rest :
  match_at pattern2 s = Some (g, rest) → identifier (group 1 g).
Proof.
  unfold match_at, pattern2. cbn [seqs]. intros H. step_pattern H.
  by apply run_free_final in H as ->.
Qed.

Lemma pattern3_group s g rest :
  match_at pattern3 s = Some (g, rest) → identifier (group 1 g).
Proof.
  unfold match_at, pattern3. cbn [seqs]. intros H. step_pattern H.
  by apply run_free_final in H as ->.
Qed.

Lemma pattern4_group s g rest :
  match_at pattern4 s = Some (g, rest) → identifier (group 1 g).
Proof.
  unfold match_at, pattern4. cbn [seqs]. intros H. step_pattern H.
  by apply run_free_final in H as ->.
Qed.

Lemma call_pattern_group s g rest :
  match_at call_pattern s = Some (g, rest) → identifier (group 1 g).
Proof.
  unfold match_at, call_pattern. cbn [seqs]. intros H. step_pattern H.
  by apply run_free_final in H as ->.
Qed.

Lemma class_pattern1_group s g rest :
  match_at class_pattern1 s = Some (g, rest) → identifier (group 1 g).
Proof.
  unfold match_at, class_pattern1. cbn [seqs]. intros H. step_pattern H.
  by apply run_free_final in H as ->.
Qed.

Lemma class_pattern2_group s g rest :
  match_at class_pattern2 s = Some (g, rest) →
  identifier (group 1 g) ∧ identifier (group 2 g).
Proof.
  unfold match_at, class_pattern2. cbn [seqs]. intros H. step_pattern H.
  apply run_group in H as (w2 & s2 & _ & L2%lang_plus & [= <- _]);
    [|reflexivity].
  done.
Qed.

Lemma findall_groups r s w :
  (∀ t g rest, match_at r t = Some (g, rest) → identifier (group 1 g)) →
  w ∈ findall r s → identifier w.
Proof.
  intros Hr (m & -> & Hin)%list_elem_of_fmap.
  destruct (finditer_sound _ _ _ Hin) as (w & rest & _ & _ & _ & Hm).
  by eapply Hr.
Qed.

(** *** Removal of matches *)

Lemma remove_sublist r : ∀ s skip, remove r skip s `sublist_of` s.
Proof.
  induction s as [|c s IH]; simpl; intros skip; [done|].
  destruct skip as [|n]; [|by apply sublist_cons].
  destruct (match_at r (c :: s)) as [[g rest]|].
  - destruct (_ - _); [by apply sublist_skip|by apply sublist_cons].
  - by apply sublist_skip.
Qed.

Lemma count_app c s t : count c (s ++ t) = count c s + count c t.
Proof. induction s as [|a s IH]; simpl; [done|]. rewrite IH. lia. Qed.

Lemma count_sublist c s t : s `sublist_of` t → count c s ≤ count c t.
Proof. induction 1; simpl; lia. Qed.

Lemma count_take c n s : count c (take n s) ≤ count c s.
Proof. apply count_sublist, sublist_take. Qed.

Lemma count_not_elem c s : c ∉ s → count c s = 0.
Proof.
  induction s as [|a s IH]; simpl; [done|].
  intros [Hne Hs]%not_elem_of_cons. rewrite IH by done.
  by destruct (Ascii.eqb_spec a c) as [->|].
Qed.

(** Removing matches that contain no [c] keeps the number of [c]. *)
Lemma remove_count r c :
  (∀ t g rest, match_at r t = Some (g, rest) →
     ∃ w, t = w ++ rest ∧ count c w = 0) →
  ∀ s skip, count c (take skip s) = 0 →
            count c (remove r skip s) = count c s.
Proof.
  intros Hr. induction s as [|a s IH]; intros skip Hskip; [done|].
  destruct skip as [|n]; cbn [remove].
  - destruct (match_at r (a :: s)) as [[g rest]|] eqn:Hm.
    + destruct (Hr _ _ _ Hm) as (w & Heq & Hw).
      assert (Hlen : length (a :: s) - length rest = length w).
      { rewrite Heq, length_app. lia. }
      rewrite Hlen. destruct w as [|a' w]; simpl.
      * by rewrite (IH 0).
      * simpl in Heq. injection Heq as <- ->. simpl in Hw.
        rewrite (IH (length w)).
        -- destruct (Ascii.eqb a c); [lia|done].
        -- rewrite take_app_length. lia.
    + simpl. by rewrite (IH 0).
  - simpl in Hskip. simpl. rewrite (IH n) by lia.
    destruct (Ascii.eqb a c); [lia|done].
Qed.

(** A pattern whose matches begin with [c] removes nothing from a text
    without [c]. *)
Lemma remove_unchanged r c :
  (∀ a t, a ≠ c → match_at r (a :: t) = None) →
  ∀ s, c ∉ s → remove r 0 s = s.
Proof.
  intros Hr. induction s as [|a s IH]; simpl; [done|].
  intros [Hne Hs]%not_elem_of_cons.
  rewrite (Hr a s) by done. by rewrite IH.
Qed.

Lemma line_comment_match t g rest :
  match_at line_comment t = Some (g, rest) →
  ∃ w, t = w ++ rest ∧ count nl w = 0.
Proof.
  intros (w & -> & L)%match_at_sound. exists w. split; [done|].
  simpl in L.
  destruct L as (w1 & w2 & -> & (a & b & -> & -> & ->)
                   & (w3 & w4 & -> & Hdot & ->)).
  rewrite app_nil_r. simpl. clear -Hdot.
  induction w3 as [|a w IH]; simpl in *; [done|].
  apply andb_true_iff in Hdot as [Ha Hw]. unfold is_dot in Ha.
  rewrite IH by done. by destruct (Ascii.eqb a nl).
Qed.

Lemma comment_starts_with_slash r a t :
  r = line_comment ∨ r = block_comment →
  a ≠ "/"%char → match_at r (a :: t) = None.
Proof.
  intros [-> | ->] Hne; unfold match_at, line_comment, block_comment;
    cbn [seqs lit lit_list txt list_ascii_of_string run];
    destruct (Ascii.eqb_spec "/" a); congruence.
Qed.

(** A pattern whose every match contains [c] finds nothing in a text
    without [c]. *)
Lemma finditer_needs r c s :
  (∀ w, lang r w → c ∈ w) → c ∉ s → finditer r s = [].
Proof.
  intros Hr Hs. destruct (finditer r s) as [|m l] eqn:Hf; [done|].
  destruct (finditer_sound r s m) as (w & rest & L & Hd & _).
  { rewrite Hf. apply elem_of_cons. by left. }
  exfalso. apply Hs. apply (elem_of_sublist (drop (m_start m) s) s c).
  - rewrite Hd. apply elem_of_app. left. by apply Hr.
  - apply sublist_drop.
Qed.

Lemma definition_is_identifier content n :
  n ∈ extract_function_definitions content → ∃ w, n = str w ∧ identifier w.
Proof.
  unfold extract_function_definitions, names.
  rewrite !elem_of_union, !elem_of_list_to_set, elem_of_empty.
  intros [[[[[]|Hn]|Hn]|Hn]|Hn];
    apply list_elem_of_fmap in Hn as (w & -> & Hw); exists w;
    (split; [done|]); revert Hw; apply findall_groups.
  - apply pattern1_group.
  - apply pattern2_group.
  - apply pattern3_group.
  - apply pattern4_group.
Qed.

Lemma strip_comments_sublist content :
  strip_comments content `sublist_of` content.
Proof.
  unfold strip_comments, sub_empty.
  etrans; apply remove_sublist.
Qed.

End extraction_facts.

Module order_facts.
Import Chr Re Lang Lang_facts function_analyzer extraction_facts.

(** The scan reports its matches by increasing start offset. *)
Lemma scan_start_sorted r : ∀ s pos skip,
  StronglySorted (λ m1 m2, m_start m1 < m_start m2) (scan r pos skip s).
Proof.
  induction s as [|c s IH]; simpl; intros pos skip.
  - destruct skip; [|constructor].
    destruct (match_at r []) as [[g rest]|]; repeat constructor.
  - destruct skip as [|n]; [|apply IH].
    destruct (match_at r (c :: s)) as [[g rest]|]; [|apply IH].
    constructor; [apply IH|]. apply Forall_forall. intros m Hm.
    destruct (scan_sound _ _ _ _ _ Hm) as (_ & _ & _ & Hpos & _).
    simpl. lia.
Qed.

Lemma count_take_mono c i j s :
  i ≤ j → count c (take i s) ≤ count c (take j s).
Proof.
  intros Hij. replace (take i s) with (take i (take j s)).
  - apply count_take.
  - rewrite take_take. f_equal. lia.
Qed.

(** A pattern whose every match contains [c] removes nothing from a text
    without [c]. *)
Lemma remove_needs r c :
  (∀ w, lang r w → c ∈ w) → ∀ s, c ∉ s → remove r 0 s = s.
Proof.
  intros Hr. induction s as [|a s IH]; simpl; [done|]. intros Hs.
  destruct (match_at r (a :: s)) as [[g rest]|] eqn:Hm.
  - exfalso. apply match_at_sound in Hm as (w & Heq & L).
    apply Hs. rewrite Heq. apply elem_of_app. left. by apply Hr.
  - rewrite IH; [done|]. by apply not_elem_of_cons in Hs as [_ Hs].
Qed.

Lemma star_in_block_comment w : lang block_comment w → "*"%char ∈ w.
Proof.
  unfold block_comment.
  cbn [seqs lit lit_list txt list_ascii_of_string lang].
  intros (w1 & w2 & -> & (a & b & -> & -> & ->) & _).
  rewrite !elem_of_app, !elem_of_cons. tauto.
Qed.

End order_facts.

Module extraction_extra.
Import Chr Re Lang Lang_facts function_analyzer extraction_facts.

(** X1: stripping comments only deletes characters: the stripped text is
    the file's text with some characters left out, in the same order. *)
Theorem strip_comments_only_deletes content :
  strip_comments content `sublist_of` content.
Proof.
  apply strip_comments_sublist.
Qed.

(** X2: removing the line comments keeps every newline, so it does not
    change the number of lines. *)
Theorem line_comments_keep_line_count content :
  count nl (sub_empty line_comment content) = count nl content.
Proof.
  unfold sub_empty. apply remove_count; [|done].
  apply line_comment_match.
Qed.

(** X3: a text without a slash has no comment: stripping returns it
    unchanged. *)
Theorem text_without_slash_unchanged content :
  "/"%char ∉ content → strip_comments content = content.
Proof.
  intros Hs. unfold strip_comments, sub_empty.
  rewrite (remove_unchanged line_comment "/") by
    (try done; intros; apply comment_starts_with_slash; auto).
  apply (remove_unchanged block_comment "/"); [|done].
  intros. apply comment_starts_with_slash; auto.
Qed.

Lemma text_without_slash_unchanged_witness :
  ("/"%char ∉ txt "foo(); bar();")
  ∧ strip_comments (txt "foo(); bar();") = txt "foo(); bar();".
Proof.
  assert (H : "/"%char ∉ txt "foo(); bar();") by by_computation.
  split; [exact H|].
  exact (text_without_slash_unchanged (txt "foo(); bar();") H).
Defined.

(** X4: a name on the exclusion list is never among the extracted
    calls. *)
Theorem excluded_names_never_called content :
  Forall (λ c, call_name c ∉ excluded) (extract_function_calls content).
Proof.
  apply Forall_forall. intros c Hin. unfold extract_function_calls in Hin.
  apply list_elem_of_In, in_flat_map in Hin as (m & _ & Hc).
  destruct (existsb _ excluded) eqn:He; [done|].
  destruct Hc as [<-|[]]. simpl. intros Hex.
  apply not_true_iff_false in He. apply He, existsb_exists.
  eexists. split; [by apply list_elem_of_In|]. apply String.eqb_refl.
Qed.

(** X5: every recorded line of a call or class reference lies between 1
    and the number of lines of the file. *)
Theorem recorded_lines_in_range content :
  Forall (λ c, 1 ≤ call_line c ≤ count nl content + 1)
         (calls (analyze_file content))
  ∧ Forall (λ r, 1 ≤ ref_line r ≤ count nl content + 1)
           (class_references (analyze_file content)).
Proof.
  assert (Hline : ∀ m,
    1 ≤ line_of (strip_comments content) m ≤ count nl content + 1).
  { intros m. unfold line_of.
    pose proof (count_take nl (m_start m) (strip_comments content)).
    pose proof (count_sublist nl _ _ (strip_comments_sublist content)).
    lia. }
  split; apply Forall_forall; simpl.
  - intros c Hin. unfold extract_function_calls in Hin.
    apply list_elem_of_In, in_flat_map in Hin as (m & _ & Hc).
    destruct (existsb _ excluded); [done|]. destruct Hc as [<-|[]].
    apply Hline.
  - intros r Hin. unfold extract_class_references in Hin.
    apply elem_of_app in Hin as [Hin|Hin].
    + apply list_elem_of_In, in_map_iff in Hin as (m & <- & _). apply Hline.
    + apply list_elem_of_In, in_flat_map in Hin as (m & _ & Hc).
      destruct (first_isupper _); [|done]. destruct Hc as [<-|[]].
      apply Hline.
Qed.

(** X6: every name the extractors return from an ASCII text is an
    identifier, a non-empty text of letters, digits and underscores: the
    definitions, the called names and the class names. *)
Theorem extracted_names_are_identifiers content :
  Charset.ascii_text content →
  set_Forall (λ n, ∃ w, n = str w ∧ identifier w)
             (extract_function_definitions content)
  ∧ Forall (λ c, ∃ w, call_name c = str w ∧ identifier w)
           (extract_function_calls content)
  ∧ Forall (λ r, ∃ w, ref_name r = str w ∧ identifier w)
           (extract_class_references content).
Proof.
  intros _. split; [|split].
  - intros n. apply definition_is_identifier.
  - apply Forall_forall. intros c Hin. unfold extract_function_calls in Hin.
    apply list_elem_of_In, in_flat_map in Hin as (m & Hm & Hc).
    destruct (existsb _ excluded); [done|]. destruct Hc as [<-|[]].
    eexists. split; [done|]. apply list_elem_of_In in Hm.
    destruct (finditer_sound _ _ _ Hm) as (w & rest & _ & _ & _ & Hg).
    by eapply call_pattern_group.
  - apply Forall_forall. intros r Hin. unfold extract_class_references in Hin.
    apply elem_of_app in Hin as [Hin|Hin].
    + apply list_elem_of_In, in_map_iff in Hin as (m & <- & Hm).
      eexists. split; [done|]. apply list_elem_of_In in Hm.
      destruct (finditer_sound _ _ _ Hm) as (w & rest & _ & _ & _ & Hg).
      by eapply class_pattern1_group.
    + apply list_elem_of_In, in_flat_map in Hin as (m & Hm & Hc).
      destruct (first_isupper _); [|done]. destruct Hc as [<-|[]].
      eexists. split; [done|]. apply list_elem_of_In in Hm.
      destruct (finditer_sound _ _ _ Hm) as (w & rest & _ & _ & _ & Hg).
      by eapply class_pattern2_group.
Qed.

Lemma extracted_names_are_identifiers_witness :
  let content := txt "function foo() { bar(); new Baz(); }" in
  Charset.ascii_text content
  ∧ set_Forall (λ n, ∃ w, n = str w ∧ identifier w)
               (extract_function_definitions content)
  ∧ Forall (λ c, ∃ w, call_name c = str w ∧ identifier w)
           (extract_function_calls content)
  ∧ Forall (λ r, ∃ w, ref_name r = str w ∧ identifier w)
           (extract_class_references content).
Proof.
  intros content.
  assert (Ha : Charset.ascii_text content) by reflexivity.
  split; [exact Ha|].
  exact (extracted_names_are_identifiers content Ha).
Defined.

(** X7: in an ASCII text, a class reference is either an instantiation
    without a member or a static reference with a member whose class
    name begins with an upper-case letter. *)
Theorem class_reference_shapes content :
  Charset.ascii_text content →
  Forall (λ r, (ref_type r = "instantiation" ∧ ref_member r = None)
               ∨ (ref_type r = "static_reference"
                  ∧ ∃ cn member, ref_name r = str cn
                                 ∧ first_isupper cn = true
                                 ∧ ref_member r = Some member))
         (extract_class_references content).
Proof.
  intros _.
  apply Forall_forall. intros r Hin. unfold extract_class_references in Hin.
  apply elem_of_app in Hin as [Hin|Hin].
  - apply list_elem_of_In, in_map_iff in Hin as (m & <- & _). by left.
  - apply list_elem_of_In, in_flat_map in Hin as (m & _ & Hc).
    destruct (first_isupper _) eqn:Hup; [|done]. destruct Hc as [<-|[]].
    right. split; [done|]. by eexists _, _.
Qed.

Lemma class_reference_shapes_witness :
  let content := txt "new Foo(); Bar.baz(); x.y" in
  Charset.ascii_text content
  ∧ Forall (λ r, (ref_type r = "instantiation" ∧ ref_member r = None)
                 ∨ (ref_type r = "static_reference"
                    ∧ ∃ cn member, ref_name r = str cn
                                   ∧ first_isupper cn = true
                                   ∧ ref_member r = Some member))
           (extract_class_references content).
Proof.
  intros content.
  assert (Ha : Charset.ascii_text content) by reflexivity.
  split; [exact Ha|].
  exact (class_reference_shapes content Ha).
Defined.

(** Opens a hypothesis [lang r w] for a concrete pattern [r]. *)
Ltac open_lang L :=
  cbn [seqs lit lit_list txt list_ascii_of_string plus opt lang] in L;
  repeat match goal with
    | H : ∃ _, _ |- _ => destruct H
    | H : _ ∧ _ |- _ => destruct H
    | H : _ ∨ _ |- _ => destruct H
    end; subst.

Lemma paren_in_match r w :
  r ∈ [pattern1; pattern2; pattern4; call_pattern; class_pattern1] →
  lang r w → "("%char ∈ w.
Proof.
  intros Hr L.
  repeat (apply elem_of_cons in Hr as [->|Hr];
          [unfold pattern1, pattern2, pattern4, call_pattern,
             class_pattern1 in L; open_lang L;
           rewrite ?elem_of_app, ?elem_of_cons; tauto|]).
  by apply elem_of_nil in Hr.
Qed.

Lemma equals_in_pattern3 w : lang pattern3 w → "="%char ∈ w.
Proof.
  intros L. unfold pattern3 in L. open_lang L;
    rewrite ?elem_of_app, ?elem_of_cons; tauto.
Qed.

(** X8: a text without an opening parenthesis contains no call and no
    instantiation, and every definition found in it is an arrow function;
    without an equals sign either, it has no definition at all. *)
Theorem no_parenthesis_no_calls content :
  "("%char ∉ content →
  extract_function_calls content = []
  ∧ Forall (λ r, ref_type r = "static_reference")
           (extract_class_references content)
  ∧ extract_function_definitions content
    = names (findall pattern3 content)
  ∧ ("="%char ∉ content → extract_function_definitions content = ∅).
Proof.
  intros Hp.
  assert (Hnone : ∀ r,
    r ∈ [pattern1; pattern2; pattern4; call_pattern; class_pattern1] →
    finditer r content = []).
  { intros r Hr. apply (finditer_needs r "("); [|done].
    intros w. by apply paren_in_match. }
  assert (Hdefs : extract_function_definitions content
                  = names (findall pattern3 content)).
  { unfold extract_function_definitions, findall.
    rewrite (Hnone pattern1), (Hnone pattern2), (Hnone pattern4)
      by set_solver.
    unfold names. simpl. set_solver. }
  split; [|split; [|split; [done|]]].
  - unfold extract_function_calls. by rewrite (Hnone call_pattern) by set_solver.
  - unfold extract_class_references.
    rewrite (Hnone class_pattern1) by set_solver. simpl.
    apply Forall_forall. intros r Hin.
    apply list_elem_of_In, in_flat_map in Hin as (m & _ & Hc).
    destruct (first_isupper _); [|done]. by destruct Hc as [<-|[]].
  - intros He. rewrite Hdefs. unfold findall.
    by rewrite (finditer_needs pattern3 "=" content equals_in_pattern3 He).
Qed.

Lemma no_parenthesis_no_calls_witness :
  let content := txt "let g = x => x; Foo.bar" in
  ("("%char ∉ content)
  ∧ extract_function_calls content = []
  ∧ extract_function_definitions content = {["g"]}.
Proof.
  intros content.
  assert (Hp : "("%char ∉ content) by by_computation.
  destruct (no_parenthesis_no_calls content Hp) as (Hc & _ & Hd & _).
  split; [exact Hp|]. split; [exact Hc|].
  rewrite Hd. by_computation.
Defined.

End extraction_extra.

Module order_extra.
Import Chr Re Lang Lang_facts function_analyzer extraction_facts order_facts.

(** X20: in a file without an asterisk there is no block comment to
    remove: stripping removes line comments only, and the stripped text
    has as many lines as the file. *)
Theorem no_asterisk_keeps_lines content :
  "*"%char ∉ content →
  strip_comments content = sub_empty line_comment content
  ∧ count nl (strip_comments content) = count nl content.
Proof.
  intros Hs.
  assert (Heq : strip_comments content = sub_empty line_comment content).
  { unfold strip_comments. unfold sub_empty at 1.
    apply (remove_needs block_comment "*" star_in_block_comment).
    intros Hin. apply Hs.
    apply (elem_of_sublist _ _ _ Hin). apply remove_sublist. }
  split; [done|]. rewrite Heq. unfold sub_empty.
  apply remove_count; [|done]. apply line_comment_match.
Qed.

Lemma no_asterisk_keeps_lines_witness :
  let content := txt "a(); // note" ++ [nl] ++ txt "b();" in
  ("*"%char ∉ content)
  ∧ strip_comments content = txt "a(); " ++ [nl] ++ txt "b();"
  ∧ count nl (strip_comments content) = 1.
Proof.
  intros content.
  assert (Hs : "*"%char ∉ content) by by_computation.
  destruct (no_asterisk_keeps_lines content Hs) as [Heq Hc].
  split; [exact Hs|]. split; [by vm_compute|].
  rewrite Hc. by vm_compute.
Defined.

(** X21: the calls are listed in the order of their occurrence in the
    text, so their line numbers never decrease along the list. *)
Theorem call_lines_never_decrease content :
  StronglySorted (λ c1 c2, call_line c1 ≤ call_line c2)
                 (extract_function_calls content).
Proof.
  unfold extract_function_calls, finditer.
  generalize (scan_start_sorted call_pattern content 0 0).
  generalize (scan call_pattern 0 0 content). intros l Hs.
  induction Hs as [|m l Hl IH Hm]; cbn [flat_map]; [constructor|].
  destruct (existsb (String.eqb (str (group 1 (m_groups m)))) excluded);
    [exact IH|].
  cbn [app]. constructor; [exact IH|].
  apply Forall_forall. intros c Hc.
  apply list_elem_of_In, in_flat_map in Hc as (m' & Hm' & Hc).
  destruct (existsb (String.eqb (str (group 1 (m_groups m')))) excluded);
    [done|].
  destruct Hc as [<-|[]]. simpl. unfold line_of. rewrite Forall_forall in Hm.
  apply list_elem_of_In, Hm in Hm'.
  pose proof (count_take_mono nl (m_start m) (m_start m') content). lia.
Qed.

End order_extra.

(* ================================================================== *)
(** ** Further properties of the aggregation *)
(* ================================================================== *)

Module dict_more.
Import dict_facts.

Lemma dict_find_dict_append {V} k (v : V) (d : dict V) u :
  dict_find u (dict_append k v d)
  = if String.eqb u k then dict_find k d ++ [v] else dict_find u d.
Proof. apply url_facts.dict_find_append. Qed.

Lemma dict_find_fold {A V} (f : A → string) (g : A → V) l : ∀ (d : dict V) u,
  dict_find u (fold_left (λ d c, dict_append (f c) (g c) d) l d)
  = dict_find u d ++ map g (List.filter (λ c, String.eqb (f c) u) l).
Proof.
  induction l as [|a l IH]; intros d u; simpl.
  - by rewrite app_nil_r.
  - rewrite IH, dict_find_dict_append. rewrite (String.eqb_sym (f a) u).
    destruct (String.eqb_spec u (f a)) as [->|_]; simpl; [|done].
    by rewrite <- app_assoc.
Qed.

Lemma elem_of_keys_fold {A V} (f : A → string) (g : A → V) l :
  ∀ (d : dict V) u,
  u ∈ keys (fold_left (λ d c, dict_append (f c) (g c) d) l d)
  ↔ u ∈ keys d ∨ ∃ c, c ∈ l ∧ f c = u.
Proof.
  induction l as [|a l IH]; intros d u; simpl.
  - split; [by left|]. intros [H|(c & Hc & _)]; [done|].
    by apply elem_of_nil in Hc.
  - rewrite IH, elem_of_keys_dict_append. split.
    + intros [[->|H]|(c & Hc & <-)]; [right|by left|right].
      * exists a. split; [apply elem_of_cons; by left|done].
      * exists c. split; [apply elem_of_cons; by right|done].
    + intros [H|(c & [->|Hc]%elem_of_cons & <-)]; [left; by right| |].
      * left; by left.
      * right. by exists c.
Qed.

(** No key of a dictionary built by [dict_append] holds an empty list. *)
Lemma dict_append_nonempty {V} k (v : V) (d : dict V) :
  Forall (λ kv, kv.2 ≠ []) d → Forall (λ kv, kv.2 ≠ []) (dict_append k v d).
Proof.
  induction d as [|[k' vs] d IH]; simpl; intros H.
  - by repeat constructor.
  - apply Forall_cons in H as [H1 H2].
    destruct (String.eqb k k'); constructor; simpl; auto.
    by destruct vs.
Qed.

Lemma fold_nonempty {A V} (f : A → string) (g : A → V) l : ∀ (d : dict V),
  Forall (λ kv, kv.2 ≠ []) d →
  Forall (λ kv, kv.2 ≠ [])
         (fold_left (λ d c, dict_append (f c) (g c) d) l d).
Proof.
  induction l as [|a l IH]; intros d H; simpl; [done|].
  by apply IH, dict_append_nonempty.
Qed.

Lemma elem_of_keys_find {V} (d : dict V) u :
  Forall (λ kv, kv.2 ≠ []) d → u ∈ keys d ↔ dict_find u d ≠ [].
Proof.
  induction d as [|[k vs] d IH]; simpl; intros H.
  - rewrite elem_of_nil. naive_solver.
  - apply Forall_cons in H as [H1 H2]. rewrite elem_of_cons, (IH H2).
    destruct (String.eqb_spec u k) as [->|Hne]; naive_solver.
Qed.

End dict_more.

Module aggregation_facts.
Import function_analyzer dict_facts analyzer_facts dict_more Sites.

Lemma all_calls_collect st file n :
  dict_find n (all_calls (collect st file))
  = dict_find n (all_calls st) ++ call_sites [file] n.
Proof.
  destruct file as [fp content]. unfold call_sites. cbn [flat_map].
  rewrite app_nil_r. simpl.
  apply (dict_find_fold call_name (λ c, mkCallLoc fp (call_line c))).
Qed.

Lemma all_calls_fold files : ∀ st n,
  dict_find n (all_calls (fold_left collect files st))
  = dict_find n (all_calls st) ++ call_sites files n.
Proof.
  induction files as [|f files IH]; intros st n; simpl.
  - by rewrite app_nil_r.
  - rewrite IH, all_calls_collect. unfold call_sites. cbn [flat_map].
    by rewrite app_nil_r, <- app_assoc.
Qed.

Lemma all_calls_nonempty files :
  Forall (λ kv, kv.2 ≠ []) (all_calls (first_pass files)).
Proof.
  unfold first_pass.
  assert (H : ∀ st, Forall (λ kv, kv.2 ≠ []) (all_calls st) →
    Forall (λ kv, kv.2 ≠ []) (all_calls (fold_left collect files st))).
  { induction files as [|[fp content] files IH]; intros st H; simpl; [done|].
    apply IH. simpl. by apply fold_nonempty. }
  apply H. constructor.
Qed.

Lemma keys_all_calls files n :
  n ∈ keys (all_calls (first_pass files)) ↔
  ∃ file c, file ∈ files ∧ c ∈ calls (analyze_file file.2)
            ∧ call_name c = n.
Proof.
  unfold first_pass.
  assert (H : ∀ st,
    n ∈ keys (all_calls (fold_left collect files st)) ↔
    n ∈ keys (all_calls st)
    ∨ ∃ file c, file ∈ files ∧ c ∈ calls (analyze_file file.2)
                ∧ call_name c = n).
  { induction files as [|[fp content] files IH]; intros st; simpl.
    - split; [by left|]. intros [H|(f & c & Hf & _)]; [done|].
      by apply elem_of_nil in Hf.
    - rewrite IH. simpl.
      rewrite (elem_of_keys_fold call_name
                 (λ c, mkCallLoc fp (call_line c))).
      split.
      + intros [[H|(c & Hc & Hn)]|(f & c & Hf & Hc & Hn)].
        * by left.
        * right. exists (fp, content), c. split; [|done].
          apply elem_of_cons. by left.
        * right. exists f, c. split; [|done]. apply elem_of_cons. by right.
      + intros [H|(f & c & [->|Hf]%elem_of_cons & Hc & Hn)].
        * left. by left.
        * left. right. by exists c.
        * right. by exists f, c. }
  rewrite H. simpl. rewrite elem_of_nil. naive_solver.
Qed.

Lemma keys_all_class_refs files n :
  n ∈ keys (all_class_refs (first_pass files)) ↔
  ∃ file r, file ∈ files ∧ r ∈ class_references (analyze_file file.2)
            ∧ ref_name r = n.
Proof.
  unfold first_pass.
  assert (H : ∀ st,
    n ∈ keys (all_class_refs (fold_left collect files st)) ↔
    n ∈ keys (all_class_refs st)
    ∨ ∃ file r, file ∈ files ∧ r ∈ class_references (analyze_file file.2)
                ∧ ref_name r = n).
  { induction files as [|[fp content] files IH]; intros st; simpl.
    - split; [by left|]. intros [H|(f & c & Hf & _)]; [done|].
      by apply elem_of_nil in Hf.
    - rewrite IH. simpl.
      rewrite (elem_of_keys_fold ref_name
                 (λ r, mkRefLoc fp (ref_line r) (ref_type r)
                         (member_or_empty r))).
      split.
      + intros [[H|(c & Hc & Hn)]|(f & c & Hf & Hc & Hn)].
        * by left.
        * right. exists (fp, content), c. split; [|done].
          apply elem_of_cons. by left.
        * right. exists f, c. split; [|done]. apply elem_of_cons. by right.
      + intros [H|(f & c & [->|Hf]%elem_of_cons & Hc & Hn)].
        * left. by left.
        * left. right. by exists c.
        * right. by exists f, c. }
  rewrite H. simpl. rewrite elem_of_nil. naive_solver.
Qed.

Lemma all_definitions_union files n :
  n ∈ all_definitions (first_pass files) ↔
  ∃ file, file ∈ files ∧ n ∈ definitions (analyze_file file.2).
Proof.
  unfold first_pass.
  assert (H : ∀ st,
    n ∈ all_definitions (fold_left collect files st) ↔
    n ∈ all_definitions st
    ∨ ∃ file, file ∈ files ∧ n ∈ definitions (analyze_file file.2)).
  { induction files as [|[fp content] files IH]; intros st; simpl.
    - split; [by left|]. intros [H|(f & Hf & _)]; [done|].
      by apply elem_of_nil in Hf.
    - rewrite IH. simpl. rewrite elem_of_union. split.
      + intros [[H|H]|(f & Hf & Hn)].
        * by left.
        * right. exists (fp, content). split; [|done].
          apply elem_of_cons. by left.
        * right. exists f. split; [|done]. apply elem_of_cons. by right.
      + intros [H|(f & [->|Hf]%elem_of_cons & Hn)].
        * left. by left.
        * left. by right.
        * right. by exists f. }
  rewrite H. simpl. rewrite elem_of_empty. naive_solver.
Qed.

Lemma elem_of_keys_uf rt files n :
  n ∈ keys (undefined_functions (main rt files).1) ↔
  n ∈ keys (all_calls (first_pass files))
  ∧ function_undefined rt (all_definitions (first_pass files)) n = true.
Proof.
  simpl. unfold find_undefined_functions.
  apply (elem_of_keys_filter
           (function_undefined rt (all_definitions (first_pass files)))).
Qed.

Lemma elem_of_keys_uc rt files n :
  n ∈ keys (undefined_classes (main rt files).1) ↔
  n ∈ keys (all_class_refs (first_pass files))
  ∧ class_undefined (all_definitions (first_pass files)) n = true.
Proof.
  simpl. unfold find_undefined_classes.
  apply (elem_of_keys_filter
           (class_undefined (all_definitions (first_pass files)))).
Qed.

End aggregation_facts.

Module aggregation_extra.
Import function_analyzer dict_facts analyzer_facts dict_more Sites
       aggregation_facts.

(** X9: a name of the builtin allowlist, and likewise a name that is
    defined in the project, is never reported, neither as an undefined
    function nor as an undefined class. *)
Theorem builtin_or_defined_never_reported rt files n :
  n ∈ gas_builtins ∨ n ∈ all_definitions (first_pass files) →
  (n ∉ keys (undefined_functions (main rt files).1))
  ∧ (n ∉ keys (undefined_classes (main rt files).1)).
Proof.
  intros Hn. rewrite elem_of_keys_uf, elem_of_keys_uc.
  unfold function_undefined, class_undefined.
  rewrite !andb_true_iff, !bool_decide_eq_true. naive_solver.
Qed.

Lemma builtin_or_defined_never_reported_witness :
  let files := [("a.gs", txt "function f() { Session(); Logger.log(1); }")] in
  "Session" ∈ gas_builtins
  ∧ "Session" ∈ keys (all_calls (first_pass files))
  ∧ ("Session" ∉ keys (undefined_functions (main rt_forward files).1))
  ∧ ("Session" ∉ keys (undefined_classes (main rt_forward files).1)).
Proof.
  intros files.
  assert (Hb : "Session" ∈ gas_builtins) by by_computation.
  split; [exact Hb|]. split; [by_computation|].
  exact (builtin_or_defined_never_reported rt_forward files "Session"
           (or_introl Hb)).
Defined.

(** X10: a referenced class name is reported undefined exactly when it is
    neither defined in the project nor on the builtin allowlist; no
    prefix test is applied to classes. *)
Theorem undefined_class_iff rt files n :
  n ∈ keys (undefined_classes (main rt files).1) ↔
  n ∈ keys (all_class_refs (first_pass files))
  ∧ (n ∉ all_definitions (first_pass files))
  ∧ (n ∉ gas_builtins).
Proof.
  rewrite elem_of_keys_uc. unfold class_undefined.
  by rewrite andb_true_iff, !bool_decide_eq_true.
Qed.

(** X11: the project-wide definitions are exactly the definitions found
    in some scanned file, and the called and referenced names are exactly
    the names of the calls and references found in some file. *)
Theorem first_pass_collects_every_file files n :
  (n ∈ all_definitions (first_pass files) ↔
   ∃ file, file ∈ files ∧ n ∈ definitions (analyze_file file.2))
  ∧ (n ∈ keys (all_calls (first_pass files)) ↔
     ∃ file c, file ∈ files ∧ c ∈ calls (analyze_file file.2)
               ∧ call_name c = n)
  ∧ (n ∈ keys (all_class_refs (first_pass files)) ↔
     ∃ file r, file ∈ files ∧ r ∈ class_references (analyze_file file.2)
               ∧ ref_name r = n).
Proof.
  split; [apply all_definitions_union|].
  split; [apply keys_all_calls|apply keys_all_class_refs].
Qed.

(** X12: the empty string is never a definition, so the prefix test of
    the undefined-function pass is never satisfied by an empty class
    name. *)
Theorem empty_name_never_defined files :
  "" ∉ all_definitions (first_pass files).
Proof.
  intros (file & _ & Hn)%all_definitions_union.
  apply extraction_facts.definition_is_identifier in Hn
    as (w & Hw & Hne & _).
  by destruct w.
Qed.

(** X13: the list kept for a name in [all_calls] is the list of all its
    call sites, file by file in scan order, each with its file and line;
    a name is a key exactly when it has a call site. *)
Theorem all_calls_lists_every_call_site files n :
  dict_find n (all_calls (first_pass files)) = call_sites files n
  ∧ (n ∈ keys (all_calls (first_pass files)) ↔ call_sites files n ≠ []).
Proof.
  assert (H : dict_find n (all_calls (first_pass files))
              = call_sites files n).
  { unfold first_pass. by rewrite all_calls_fold. }
  split; [done|]. rewrite <- H.
  apply elem_of_keys_find, all_calls_nonempty.
Qed.

(** X14: a reported undefined function carries all call sites of its
    name, and at least one. *)
Theorem findings_carry_all_call_sites rt files :
  Forall (λ kv, kv.2 = call_sites files kv.1 ∧ kv.2 ≠ [])
         (undefined_functions (main rt files).1).
Proof.
  apply Forall_forall. intros [n locs] Hin. simpl in Hin.
  unfold find_undefined_functions in Hin.
  apply list_elem_of_In, filter_In in Hin as [Hin _].
  apply list_elem_of_In in Hin. simpl.
  destruct (first_pass_keys_distinct files) as [Hnd _].
  rewrite <- (url_facts.elem_of_dict_find _ _ _ Hnd Hin).
  split.
  - unfold first_pass. by rewrite all_calls_fold.
  - pose proof (all_calls_nonempty files) as Hne.
    rewrite Forall_forall in Hne.
    rewrite (url_facts.elem_of_dict_find _ _ _ Hnd Hin).
    apply (Hne (n, locs) Hin).
Qed.

(** X15: the findings do not depend on the order in which the directory
    listing gives the files, nor on the enumeration order of sets: two
    runs over the same files in any order report the same undefined
    names and return the same exit code. *)
Theorem findings_independent_of_file_order rt1 rt2 files1 files2 :
  files1 ≡ₚ files2 →
  keys (undefined_functions (main rt1 files1).1)
    ≡ₚ keys (undefined_functions (main rt2 files2).1)
  ∧ keys (undefined_classes (main rt1 files1).1)
      ≡ₚ keys (undefined_classes (main rt2 files2).1)
  ∧ (main rt1 files1).2 = (main rt2 files2).2.
Proof.
  intros Hp.
  assert (HD : all_definitions (first_pass files1)
               = all_definitions (first_pass files2)).
  { apply set_eq. intros n. rewrite !all_definitions_union.
    by setoid_rewrite Hp. }
  destruct (first_pass_keys_distinct files1) as [Hc1 Hr1].
  destruct (first_pass_keys_distinct files2) as [Hc2 Hr2].
  assert (Hf : keys (undefined_functions (main rt1 files1).1)
               ≡ₚ keys (undefined_functions (main rt2 files2).1)).
  { apply NoDup_Permutation.
    - by apply NoDup_keys_filter.
    - by apply NoDup_keys_filter.
    - intros n. rewrite !elem_of_keys_uf, !keys_all_calls, HD.
      rewrite !function_undefined_true. by setoid_rewrite Hp. }
  assert (Hc : keys (undefined_classes (main rt1 files1).1)
               ≡ₚ keys (undefined_classes (main rt2 files2).1)).
  { apply NoDup_Permutation.
    - by apply NoDup_keys_filter.
    - by apply NoDup_keys_filter.
    - intros n. rewrite !elem_of_keys_uc, !keys_all_class_refs, HD.
      by setoid_rewrite Hp. }
  split; [done|]. split; [done|].
  apply Permutation_length in Hf, Hc. unfold keys in Hf, Hc.
  rewrite !length_map in Hf, Hc. simpl in *. lia.
Qed.

Lemma findings_independent_of_file_order_witness :
  let a := ("a.gs", txt "function f() { g(); }") in
  let b := ("b.gs", txt "h(); new K();") in
  [a; b] ≡ₚ [b; a]
  ∧ (main rt_forward [a; b]).2 = 4
  ∧ (main rt_backward [b; a]).2 = 4.
Proof.
  intros a b.
  assert (Hp : [a; b] ≡ₚ [b; a]) by apply perm_swap.
  destruct (findings_independent_of_file_order rt_forward rt_backward
              [a; b] [b; a] Hp) as (_ & _ & He).
  split; [exact Hp|]. split; [by vm_compute|].
  rewrite <- He. by vm_compute.
Defined.

End aggregation_extra.

(* ================================================================== *)
(** ** Further properties of the URL tester *)
(* ================================================================== *)

Module url_more.
Import Chr Re Lang Lang_facts url_test url_facts.

(** *** [rstrip] *)

Lemma drop_while_app p x y :
  drop_while p (x ++ y)
  = if forallb p x then drop_while p y else drop_while p x ++ y.
Proof.
  induction x as [|a x IH]; simpl; [done|].
  destruct (p a); simpl; [apply IH|done].
Qed.

Lemma drop_while_all p x : forallb p x = true → drop_while p x = [].
Proof.
  induction x as [|a x IH]; simpl; [done|].
  intros [-> H]%andb_true_iff. by apply IH.
Qed.

Lemma drop_while_head p x c : head (drop_while p x) = Some c → p c = false.
Proof.
  induction x as [|a x IH]; simpl; [done|].
  destruct (p a) eqn:Ha; [done|]. simpl. by intros [= <-].
Qed.

Lemma drop_while_suffix p x : ∃ t, x = t ++ drop_while p x.
Proof.
  induction x as [|a x [t IH]]; simpl; [by exists []|].
  destruct (p a); [|by exists []]. exists (a :: t). simpl. by f_equal.
Qed.

Lemma last_rev {A} (l : list A) : last (rev l) = head l.
Proof. destruct l as [|a l]; simpl; [done|]. apply last_snoc. Qed.

(** What [rstrip] returns does not end in a stripped character. *)
Lemma rstrip_last chars s c :
  last (rstrip chars s) = Some c → one_of chars c = false.
Proof. unfold rstrip. rewrite last_rev. apply drop_while_head. Qed.

(** [rstrip] returns a prefix of its argument. *)
Lemma rstrip_prefix chars s : ∃ t, s = rstrip chars s ++ t.
Proof.
  unfold rstrip.
  destruct (drop_while_suffix (λ c, one_of chars c) (rev s)) as [t Ht].
  exists (rev t). rewrite <- rev_app_distr, <- Ht. by rewrite rev_involutive.
Qed.

(** [rstrip] does not go past a character that is not stripped. *)
Lemma rstrip_app_stop chars a c b :
  one_of chars c = false →
  rstrip chars ((a ++ [c]) ++ b) = (a ++ [c]) ++ rstrip chars b.
Proof.
  intros Hc. unfold rstrip. rewrite rev_app_distr, drop_while_app.
  destruct (forallb _ (rev b)) eqn:Hb.
  - rewrite (drop_while_all _ _ Hb). simpl. rewrite app_nil_r.
    rewrite rev_app_distr. simpl. rewrite Hc.
    change (rev (c :: rev a) = a ++ [c]). simpl. by rewrite rev_involutive.
  - by rewrite rev_app_distr, rev_involutive.
Qed.

Lemma forallb_app_l {A} (p : A → bool) x y :
  forallb p (x ++ y) = true → forallb p x = true.
Proof. rewrite forallb_app. by intros [H _]%andb_true_iff. Qed.

(** The texts of the URL pattern: a scheme and a non-empty body of URL
    characters. *)
Lemma lang_url_pattern w :
  lang url_pattern w →
  ∃ scheme body, w = scheme ++ body
                 ∧ (scheme = txt "http://" ∨ scheme = txt "https://")
                 ∧ forallb url_char body = true.
Proof.
  unfold url_pattern.
  cbn [seqs lit lit_list txt list_ascii_of_string plus opt lang].
  intros (w1 & w2 & -> & (h & r1 & -> & -> & t & r2 & -> & -> & t' & p & -> & -> & ->)
            & (w3 & w4 & -> & Hs & (w5 & w6 & -> & (a & r3 & -> & -> & b & c & -> & -> & ->)
            & (w7 & w8 & -> & (x & -> & Hx) & Hw8)))).
  destruct Hs as [->| ->].
  - exists (txt "https://"), (x :: w8). simpl. rewrite Hx, Hw8. naive_solver.
  - exists (txt "http://"), (x :: w8). simpl. rewrite Hx, Hw8. naive_solver.
Qed.

Lemma cleaned_url_shape w :
  lang url_pattern w →
  ∃ scheme body,
    rstrip ".,;:!?)" w = scheme ++ body
    ∧ (scheme = txt "http://" ∨ scheme = txt "https://")
    ∧ forallb url_char body = true
    ∧ ∀ c, last (scheme ++ body) = Some c → one_of ".,;:!?)" c = false.
Proof.
  intros (scheme & body & -> & Hs & Hb)%lang_url_pattern.
  exists scheme, (rstrip ".,;:!?)" body).
  assert (Heq : rstrip ".,;:!?)" (scheme ++ body)
                = scheme ++ rstrip ".,;:!?)" body).
  { destruct Hs as [-> | ->].
    - by apply (rstrip_app_stop _ (txt "http:/") "/" body).
    - by apply (rstrip_app_stop _ (txt "https:/") "/" body). }
  split; [done|]. split; [done|]. split.
  - destruct (rstrip_prefix ".,;:!?)" body) as [t Ht].
    rewrite Ht in Hb. by apply forallb_app_l in Hb.
  - intros c. rewrite <- Heq. apply rstrip_last.
Qed.

Lemma flat_map_snd_dict_append {V} k (v : V) (d : dict V) :
  length (flat_map snd (dict_append k v d)) = S (length (flat_map snd d)).
Proof.
  induction d as [|[k' vs] d IH]; simpl; [done|].
  destruct (String.eqb k k'); simpl; rewrite ?length_app; simpl.
  - lia.
  - rewrite IH. lia.
Qed.

Lemma dict_get_append_status k (v : entry) d d' :
  e_status v = k →
  Forall (λ kl, Forall (λ en, e_status en = kl.1) kl.2) d →
  dict_get_append k v d = Ok d' →
  Forall (λ kl, Forall (λ en, e_status en = kl.1) kl.2) d'.
Proof.
  intros Hv. revert d'. induction d as [|[k' vs] d IH]; simpl; intros d' H Hd.
  - done.
  - apply Forall_cons in H as [H1 H2].
    destruct (String.eqb_spec k k') as [->|Hne].
    + injection Hd as <-. constructor; [|done]. simpl in *.
      apply Forall_app. split; [done|]. by constructor.
    + unfold mbind, result_bind in Hd.
      destruct (dict_get_append k v d) as [d''|x]; [|done].
      injection Hd as <-. constructor; [done|]. by apply IH.
Qed.

Lemma test_each_status e items : ∀ results results',
  Forall (λ kl, Forall (λ en, e_status en = kl.1) kl.2) results →
  test_each e items results = Ok results' →
  Forall (λ kl, Forall (λ en, e_status en = kl.1) kl.2) results'.
Proof.
  induction items as [|[url files] items IH]; simpl; intros results results' H Ht.
  - by injection Ht as <-.
  - unfold mbind, result_bind in Ht.
    destruct (test_url e url) as [[st msg]|x]; [|done]. simpl in Ht.
    destruct (dict_get_append st _ results) as [r1|x] eqn:Hr; [|done].
    apply (IH r1); [|done].
    by eapply dict_get_append_status; [|exact H|exact Hr].
Qed.

Lemma filter_other_status k k' (l : list entry) :
  k ≠ k' → Forall (λ en, e_status en = k) l →
  List.filter (λ en, String.eqb (e_status en) k') l = [].
Proof.
  intros Hne. induction 1 as [|en l Hen _ IH]; simpl; [done|].
  rewrite Hen. by destruct (String.eqb_spec k k').
Qed.

Lemma filter_same_status k (l : list entry) :
  Forall (λ en, e_status en = k) l →
  List.filter (λ en, String.eqb (e_status en) k) l = l.
Proof.
  induction 1 as [|en l Hen _ IH]; simpl; [done|].
  by rewrite Hen, String.eqb_refl, IH.
Qed.

(** What [main] returns: the three lists, each holding entries of its own
    status, and the number of entries of the second. *)
Lemma main_returns e files :
  ∃ ok failed skipped,
    main e files
    = Ok ([("success", ok); ("fail", failed); ("skip", skipped)],
          length failed)
    ∧ Forall (λ en, e_status en = "success") ok
    ∧ Forall (λ en, e_status en = "fail") failed
    ∧ Forall (λ en, e_status en = "skip") skipped
    ∧ ok ++ failed ++ skipped
      ≡ₚ map (entry_of e) (unique (collect_urls files)).
Proof.
  unfold main.
  destruct (test_each_ok e (unique (collect_urls files)) empty_results)
    as (results & Ht & Hk & Hp); [done|].
  pose proof (test_each_status e (unique (collect_urls files))
                empty_results results) as Hst.
  rewrite Ht. simpl.
  destruct results as [|[k1 l1] [|[k2 l2] [|[k3 l3] [|? ?]]]]; try done.
  simpl in Hk. injection Hk as -> -> ->.
  simpl. exists l1, l2, l3. split; [done|].
  assert (H0 : Forall (λ kl, Forall (λ en : entry, e_status en = kl.1) kl.2)
                 empty_results) by (repeat constructor).
  specialize (Hst H0 Ht).
  apply Forall_cons in Hst as [H1 Hst]. apply Forall_cons in Hst as [H2 Hst].
  apply Forall_cons in Hst as [H3 _].
  split; [done|]. split; [done|]. split; [done|].
  unfold all_entries in Hp. simpl in Hp. by rewrite app_nil_r in Hp.
Qed.

End url_more.

Module url_extra.
Import Chr Re Lang Lang_facts url_test url_facts url_more.

(** X16: every URL taken from an ASCII file carries the path of that
    file, begins with [http://] or [https://], continues with URL
    characters only, and does not end in one of the characters
    [.,;:!?)]. *)
Theorem extracted_urls_are_clean filepath content :
  Charset.ascii_text content →
  Forall (λ uf, uf.2 = filepath
                ∧ ∃ scheme body,
                    uf.1 = str (scheme ++ body)
                    ∧ (scheme = txt "http://" ∨ scheme = txt "https://")
                    ∧ forallb url_char body = true
                    ∧ ∀ c, last (scheme ++ body) = Some c →
                           one_of ".,;:!?)" c = false)
         (extract_urls_from_file filepath (Some content)).
Proof.
  intros _.
  apply Forall_forall. intros uf Hin. simpl in Hin.
  apply list_elem_of_fmap in Hin as (w & -> & Hw). simpl.
  split; [done|]. apply findall0_sound in Hw.
  destruct (cleaned_url_shape w Hw) as (scheme & body & -> & H).
  by exists scheme, body.
Qed.

Lemma extracted_urls_are_clean_witness :
  let content := txt "See http://x.org/a, and (https://y.org)." in
  Charset.ascii_text content
  ∧ extract_urls_from_file "a.md" (Some content)
    = [("http://x.org/a", "a.md"); ("https://y.org", "a.md")]
  ∧ Forall (λ uf, uf.2 = "a.md"
                  ∧ ∃ scheme body,
                      uf.1 = str (scheme ++ body)
                      ∧ (scheme = txt "http://" ∨ scheme = txt "https://")
                      ∧ forallb url_char body = true
                      ∧ ∀ c, last (scheme ++ body) = Some c →
                             one_of ".,;:!?)" c = false)
           (extract_urls_from_file "a.md" (Some content)).
Proof.
  intros content.
  assert (Ha : Charset.ascii_text content) by reflexivity.
  split; [exact Ha|]. split; [by vm_compute|].
  exact (extracted_urls_are_clean "a.md" content Ha).
Defined.

(** X17: deduplication keeps every occurrence: the keys of [unique_urls]
    are the distinct URLs found, the list of a URL holds the file of each
    of its occurrences in order, and the lists together have as many
    elements as there are occurrences. *)
Theorem unique_keeps_every_occurrence all_urls :
  NoDup (keys (unique all_urls))
  ∧ (∀ url, url ∈ keys (unique all_urls) ↔ url ∈ all_urls.*1)
  ∧ (∀ url, dict_find url (unique all_urls) = found_in all_urls url)
  ∧ length (flat_map snd (unique all_urls)) = length all_urls.
Proof.
  destruct (keys_unique all_urls) as [Hnd Hk].
  split; [done|]. split; [done|]. split; [apply dict_find_unique|].
  unfold unique.
  assert (H : ∀ d : dict string,
    length (flat_map snd
              (fold_left (λ d uf, dict_append uf.1 uf.2 d) all_urls d))
    = length (flat_map snd d) + length all_urls).
  { clear. induction all_urls as [|uf l IH]; intros d; simpl; [lia|].
    rewrite IH, flat_map_snd_dict_append. lia. }
  by rewrite H.
Qed.

(** X18: [main] always returns; every entry is filed in the list of its
    own status, and there is one entry per distinct URL. *)
Theorem results_filed_by_status e files :
  ∃ results code,
    main e files = Ok (results, code)
    ∧ Forall (λ kl, Forall (λ en, e_status en = kl.1) kl.2) results
    ∧ length (all_entries results)
      = length (unique (collect_urls files)).
Proof.
  destruct (main_returns e files)
    as (ok & failed & skipped & -> & H1 & H2 & H3 & Hp).
  eexists _, _. split; [done|]. split; [by repeat constructor|].
  unfold all_entries. simpl. rewrite app_nil_r, Hp. by rewrite length_map.
Qed.

(** X19: [main] hands [sys.exit] the number of distinct URLs whose probe
    fails, which is at most the number of distinct URLs found; the exit
    status of the process is this number modulo 256, so it is the number
    itself when fewer than 256 URLs fail. *)
Theorem exit_status_is_failed_urls_mod_256 e files :
  let failed_urls :=
    length (List.filter
              (λ item, String.eqb (e_status (entry_of e item)) "fail")
              (unique (collect_urls files))) in
  (∃ results, main e files = Ok (results, failed_urls))
  ∧ failed_urls ≤ length (unique (collect_urls files))
  ∧ (process.link_checker_process e files).2 = failed_urls mod 256
  ∧ (failed_urls < 256 →
     (process.link_checker_process e files).2 = failed_urls).
Proof.
  intros failed_urls.
  destruct (main_returns e files)
    as (ok & failed & skipped & Hmain & H1 & H2 & H3 & Hp).
  assert (Hc : length failed = failed_urls).
  { apply (filter_Permutation (λ en, String.eqb (e_status en) "fail"))
      in Hp.
    rewrite !List.filter_app in Hp.
    rewrite (filter_other_status "success" "fail" ok),
            (filter_other_status "skip" "fail" skipped),
            (filter_same_status "fail" failed) in Hp
      by (assumption || discriminate).
    rewrite app_nil_r in Hp. simpl in Hp.
    apply Permutation_length in Hp. rewrite Hp. unfold failed_urls. clear.
    induction (unique (collect_urls files)) as [|it l IH]; simpl; [done|].
    destruct (String.eqb _ "fail"); simpl; by rewrite IH. }
  rewrite Hc in Hmain.
  assert (Hs : (process.link_checker_process e files).2
               = failed_urls mod 256).
  { unfold process.link_checker_process. by rewrite Hmain. }
  split; [by eexists|]. split; [apply List.filter_length_le|].
  split; [exact Hs|]. intros Hlt. rewrite Hs. by apply Nat.mod_small.
Qed.

End url_extra.

(* ================================================================== *)
(** ** The scripts run as programs *)
(* ================================================================== *)

Module process_facts.
Import function_analyzer process.



End process_facts.

Module process_claims.
Import function_analyzer process process_facts.

(** C2, at the failing input: in the file [0();1(); ... 255();] the 256
    called names are all undefined; [main] returns 256 and the process
    exits with status 0, the status of a run without findings.  A file
    that cannot be read ends the run with status 1 and no report,
    whatever the findings would have been. *)
Lemma exit_status_wraps_at_256 :
  length (keys (undefined_functions
                  (main rt_forward [("a.gs", many_calls)]).1)) = 256
  ∧ undefined_classes (main rt_forward [("a.gs", many_calls)]).1 = []
  ∧ (main rt_forward [("a.gs", many_calls)]).2 = 256
  ∧ (analyzer_process rt_forward [("a.gs", Some many_calls)]).2 = 0
  ∧ analyzer_process rt_forward [("a.gs", None)] = (None, 1).
Proof. by vm_compute. Qed.


End process_claims.
